(** * wc: count lines, words, and characters

    A shallow embedding of [wc/wc.go] and the properties of its
    byte-driven state machine, of its chunked read loop and of its
    reporting front end.

    Go's [uint64] counters are integers in [Z] reduced modulo [2^64] after
    every update; bytes are [Byte.byte]; the slice variable [state], which
    always aliases one of the four transition tables, is the name of the
    table it points to. *)

From Stdlib Require Import ZArith List Lia Bool String Ascii DecimalString.
From Stdlib Require Import Init.Byte.
From Stdlib Require Import Permutation DecimalN DecimalPos.
Import ListNotations.

Open Scope Z_scope.

(** ** Machine integers *)

Module U64.

Definition modulus : Z := 2 ^ 64.

(** Reduction of an integer to the range of a [uint64]. *)
Definition wrap (z : Z) : Z := z mod modulus.

Definition add (x y : Z) : Z := wrap (x + y).

(** [x++] and [x--] on a [uint64]. *)
Definition incr (x : Z) : Z := wrap (x + 1).
Definition decr (x : Z) : Z := wrap (x - 1).

Definition in_range (z : Z) : Prop := 0 <= z < modulus.

End U64.

(** ** Data model *)

(** [type counter struct { lines, words, chars, errors, bytes uint64 }] *)
Record counter : Type := mkCounter
  { lines : Z; words : Z; chars : Z; errors : Z; bytes : Z }.

Definition zero_counter : counter := mkCounter 0 0 0 0 0.

(** The sixteen action codes, [AC2 = iota] up to [AWDX]. *)
Inductive action : Type :=
  | AC2    (* enter statec2 *)
  | AC2R   (* enter statec2, don't count a rune *)
  | AC2W   (* enter statec2, count a word *)
  | AC2X   (* enter statec2, count a bad rune *)
  | AC3    (* enter statec3 *)
  | AC3W   (* enter statec3, count a word *)
  | AC3X   (* enter statec3, count a bad rune *)
  | ASP    (* enter statesp *)
  | ASPN   (* enter statesp, count a newline *)
  | ASPNX  (* enter statesp, count a newline, count a bad rune *)
  | ASPX   (* enter statesp, count a bad rune *)
  | AWD    (* enter statewd *)
  | AWDR   (* enter statewd, don't count a rune *)
  | AWDW   (* enter statewd, count a word *)
  | AWDWX  (* enter statewd, count a word, count a bad rune *)
  | AWDX.  (* enter statewd, count a bad rune *)

(** The numeric value [iota] gives each action in the source. *)
Definition action_code (a : action) : Z :=
  match a with
  | AC2 => 0 | AC2R => 1 | AC2W => 2 | AC2X => 3
  | AC3 => 4 | AC3W => 5 | AC3X => 6
  | ASP => 7 | ASPN => 8 | ASPNX => 9 | ASPX => 10
  | AWD => 11 | AWDR => 12 | AWDW => 13 | AWDWX => 14 | AWDX => 15
  end.

(** [statesp]: looking for the start of a word. *)
Definition statesp : list action :=
  [AWDW; AWDW; AWDW; AWDW; AWDW; AWDW; AWDW; AWDW; (* 00-07 *)
   AWDW; ASP; ASPN; AWDW; AWDW; AWDW; AWDW; AWDW; (* 08-0f *)
   AWDW; AWDW; AWDW; AWDW; AWDW; AWDW; AWDW; AWDW; (* 10-17 *)
   AWDW; AWDW; AWDW; AWDW; AWDW; AWDW; AWDW; AWDW; (* 18-1f *)
   ASP; AWDW; AWDW; AWDW; AWDW; AWDW; AWDW; AWDW; (* 20-27 *)
   AWDW; AWDW; AWDW; AWDW; AWDW; AWDW; AWDW; AWDW; (* 28-2f *)
   AWDW; AWDW; AWDW; AWDW; AWDW; AWDW; AWDW; AWDW; (* 30-37 *)
   AWDW; AWDW; AWDW; AWDW; AWDW; AWDW; AWDW; AWDW; (* 38-3f *)
   AWDW; AWDW; AWDW; AWDW; AWDW; AWDW; AWDW; AWDW; (* 40-47 *)
   AWDW; AWDW; AWDW; AWDW; AWDW; AWDW; AWDW; AWDW; (* 48-4f *)
   AWDW; AWDW; AWDW; AWDW; AWDW; AWDW; AWDW; AWDW; (* 50-57 *)
   AWDW; AWDW; AWDW; AWDW; AWDW; AWDW; AWDW; AWDW; (* 58-5f *)
   AWDW; AWDW; AWDW; AWDW; AWDW; AWDW; AWDW; AWDW; (* 60-67 *)
   AWDW; AWDW; AWDW; AWDW; AWDW; AWDW; AWDW; AWDW; (* 68-6f *)
   AWDW; AWDW; AWDW; AWDW; AWDW; AWDW; AWDW; AWDW; (* 70-77 *)
   AWDW; AWDW; AWDW; AWDW; AWDW; AWDW; AWDW; AWDW; (* 78-7f *)
   AWDWX; AWDWX; AWDWX; AWDWX; AWDWX; AWDWX; AWDWX; AWDWX; (* 80-87 *)
   AWDWX; AWDWX; AWDWX; AWDWX; AWDWX; AWDWX; AWDWX; AWDWX; (* 88-8f *)
   AWDWX; AWDWX; AWDWX; AWDWX; AWDWX; AWDWX; AWDWX; AWDWX; (* 90-97 *)
   AWDWX; AWDWX; AWDWX; AWDWX; AWDWX; AWDWX; AWDWX; AWDWX; (* 98-9f *)
   AWDWX; AWDWX; AWDWX; AWDWX; AWDWX; AWDWX; AWDWX; AWDWX; (* a0-a7 *)
   AWDWX; AWDWX; AWDWX; AWDWX; AWDWX; AWDWX; AWDWX; AWDWX; (* a8-af *)
   AWDWX; AWDWX; AWDWX; AWDWX; AWDWX; AWDWX; AWDWX; AWDWX; (* b0-b7 *)
   AWDWX; AWDWX; AWDWX; AWDWX; AWDWX; AWDWX; AWDWX; AWDWX; (* b8-bf *)
   AC2W; AC2W; AC2W; AC2W; AC2W; AC2W; AC2W; AC2W; (* c0-c7 *)
   AC2W; AC2W; AC2W; AC2W; AC2W; AC2W; AC2W; AC2W; (* c8-cf *)
   AC2W; AC2W; AC2W; AC2W; AC2W; AC2W; AC2W; AC2W; (* d0-d7 *)
   AC2W; AC2W; AC2W; AC2W; AC2W; AC2W; AC2W; AC2W; (* d8-df *)
   AC3W; AC3W; AC3W; AC3W; AC3W; AC3W; AC3W; AC3W; (* e0-e7 *)
   AC3W; AC3W; AC3W; AC3W; AC3W; AC3W; AC3W; AC3W; (* e8-ef *)
   AWDWX; AWDWX; AWDWX; AWDWX; AWDWX; AWDWX; AWDWX; AWDWX; (* f0-f7 *)
   AWDWX; AWDWX; AWDWX; AWDWX; AWDWX; AWDWX; AWDWX; AWDWX (* f8-ff *) ].

(** [statewd]: looking for the next character in a word. *)
Definition statewd : list action :=
  [AWD; AWD; AWD; AWD; AWD; AWD; AWD; AWD; (* 00-07 *)
   AWD; ASP; ASPN; AWD; AWD; AWD; AWD; AWD; (* 08-0f *)
   AWD; AWD; AWD; AWD; AWD; AWD; AWD; AWD; (* 10-17 *)
   AWD; AWD; AWD; AWD; AWD; AWD; AWD; AWD; (* 18-1f *)
   ASP; AWD; AWD; AWD; AWD; AWD; AWD; AWD; (* 20-27 *)
   AWD; AWD; AWD; AWD; AWD; AWD; AWD; AWD; (* 28-2f *)
   AWD; AWD; AWD; AWD; AWD; AWD; AWD; AWD; (* 30-37 *)
   AWD; AWD; AWD; AWD; AWD; AWD; AWD; AWD; (* 38-3f *)
   AWD; AWD; AWD; AWD; AWD; AWD; AWD; AWD; (* 40-47 *)
   AWD; AWD; AWD; AWD; AWD; AWD; AWD; AWD; (* 48-4f *)
   AWD; AWD; AWD; AWD; AWD; AWD; AWD; AWD; (* 50-57 *)
   AWD; AWD; AWD; AWD; AWD; AWD; AWD; AWD; (* 58-5f *)
   AWD; AWD; AWD; AWD; AWD; AWD; AWD; AWD; (* 60-67 *)
   AWD; AWD; AWD; AWD; AWD; AWD; AWD; AWD; (* 68-6f *)
   AWD; AWD; AWD; AWD; AWD; AWD; AWD; AWD; (* 70-77 *)
   AWD; AWD; AWD; AWD; AWD; AWD; AWD; AWD; (* 78-7f *)
   AWDX; AWDX; AWDX; AWDX; AWDX; AWDX; AWDX; AWDX; (* 80-87 *)
   AWDX; AWDX; AWDX; AWDX; AWDX; AWDX; AWDX; AWDX; (* 88-8f *)
   AWDX; AWDX; AWDX; AWDX; AWDX; AWDX; AWDX; AWDX; (* 90-97 *)
   AWDX; AWDX; AWDX; AWDX; AWDX; AWDX; AWDX; AWDX; (* 98-9f *)
   AWDX; AWDX; AWDX; AWDX; AWDX; AWDX; AWDX; AWDX; (* a0-a7 *)
   AWDX; AWDX; AWDX; AWDX; AWDX; AWDX; AWDX; AWDX; (* a8-af *)
   AWDX; AWDX; AWDX; AWDX; AWDX; AWDX; AWDX; AWDX; (* b0-b7 *)
   AWDX; AWDX; AWDX; AWDX; AWDX; AWDX; AWDX; AWDX; (* b8-bf *)
   AC2; AC2; AC2; AC2; AC2; AC2; AC2; AC2; (* c0-c7 *)
   AC2; AC2; AC2; AC2; AC2; AC2; AC2; AC2; (* c8-cf *)
   AC2; AC2; AC2; AC2; AC2; AC2; AC2; AC2; (* d0-d7 *)
   AC2; AC2; AC2; AC2; AC2; AC2; AC2; AC2; (* d8-df *)
   AC3; AC3; AC3; AC3; AC3; AC3; AC3; AC3; (* e0-e7 *)
   AC3; AC3; AC3; AC3; AC3; AC3; AC3; AC3; (* e8-ef *)
   AWDX; AWDX; AWDX; AWDX; AWDX; AWDX; AWDX; AWDX; (* f0-f7 *)
   AWDX; AWDX; AWDX; AWDX; AWDX; AWDX; AWDX; AWDX (* f8-ff *) ].

(** [statec2]: looking for 10xxxxxx to complete a rune. *)
Definition statec2 : list action :=
  [AWDX; AWDX; AWDX; AWDX; AWDX; AWDX; AWDX; AWDX; (* 00-07 *)
   AWDX; ASPX; ASPNX; AWDX; AWDX; AWDX; AWDX; AWDX; (* 08-0f *)
   AWDX; AWDX; AWDX; AWDX; AWDX; AWDX; AWDX; AWDX; (* 10-17 *)
   AWDX; AWDX; AWDX; AWDX; AWDX; AWDX; AWDX; AWDX; (* 18-1f *)
   ASPX; AWDX; AWDX; AWDX; AWDX; AWDX; AWDX; AWDX; (* 20-27 *)
   AWDX; AWDX; AWDX; AWDX; AWDX; AWDX; AWDX; AWDX; (* 28-2f *)
   AWDX; AWDX; AWDX; AWDX; AWDX; AWDX; AWDX; AWDX; (* 30-37 *)
   AWDX; AWDX; AWDX; AWDX; AWDX; AWDX; AWDX; AWDX; (* 38-3f *)
   AWDX; AWDX; AWDX; AWDX; AWDX; AWDX; AWDX; AWDX; (* 40-47 *)
   AWDX; AWDX; AWDX; AWDX; AWDX; AWDX; AWDX; AWDX; (* 48-4f *)
   AWDX; AWDX; AWDX; AWDX; AWDX; AWDX; AWDX; AWDX; (* 50-57 *)
   AWDX; AWDX; AWDX; AWDX; AWDX; AWDX; AWDX; AWDX; (* 58-5f *)
   AWDX; AWDX; AWDX; AWDX; AWDX; AWDX; AWDX; AWDX; (* 60-67 *)
   AWDX; AWDX; AWDX; AWDX; AWDX; AWDX; AWDX; AWDX; (* 68-6f *)
   AWDX; AWDX; AWDX; AWDX; AWDX; AWDX; AWDX; AWDX; (* 70-77 *)
   AWDX; AWDX; AWDX; AWDX; AWDX; AWDX; AWDX; AWDX; (* 78-7f *)
   AWDR; AWDR; AWDR; AWDR; AWDR; AWDR; AWDR; AWDR; (* 80-87 *)
   AWDR; AWDR; AWDR; AWDR; AWDR; AWDR; AWDR; AWDR; (* 88-8f *)
   AWDR; AWDR; AWDR; AWDR; AWDR; AWDR; AWDR; AWDR; (* 90-97 *)
   AWDR; AWDR; AWDR; AWDR; AWDR; AWDR; AWDR; AWDR; (* 98-9f *)
   AWDR; AWDR; AWDR; AWDR; AWDR; AWDR; AWDR; AWDR; (* a0-a7 *)
   AWDR; AWDR; AWDR; AWDR; AWDR; AWDR; AWDR; AWDR; (* a8-af *)
   AWDR; AWDR; AWDR; AWDR; AWDR; AWDR; AWDR; AWDR; (* b0-b7 *)
   AWDR; AWDR; AWDR; AWDR; AWDR; AWDR; AWDR; AWDR; (* b8-bf *)
   AC2X; AC2X; AC2X; AC2X; AC2X; AC2X; AC2X; AC2X; (* c0-c7 *)
   AC2X; AC2X; AC2X; AC2X; AC2X; AC2X; AC2X; AC2X; (* c8-cf *)
   AC2X; AC2X; AC2X; AC2X; AC2X; AC2X; AC2X; AC2X; (* d0-d7 *)
   AC2X; AC2X; AC2X; AC2X; AC2X; AC2X; AC2X; AC2X; (* d8-df *)
   AC3X; AC3X; AC3X; AC3X; AC3X; AC3X; AC3X; AC3X; (* e0-e7 *)
   AC3X; AC3X; AC3X; AC3X; AC3X; AC3X; AC3X; AC3X; (* e8-ef *)
   AWDX; AWDX; AWDX; AWDX; AWDX; AWDX; AWDX; AWDX; (* f0-f7 *)
   AWDX; AWDX; AWDX; AWDX; AWDX; AWDX; AWDX; AWDX (* f8-ff *) ].

(** [statec3]: looking for 10xxxxxx,10xxxxxx to complete a rune. *)
Definition statec3 : list action :=
  [AWDX; AWDX; AWDX; AWDX; AWDX; AWDX; AWDX; AWDX; (* 00-07 *)
   AWDX; ASPX; ASPNX; AWDX; AWDX; AWDX; AWDX; AWDX; (* 08-0f *)
   AWDX; AWDX; AWDX; AWDX; AWDX; AWDX; AWDX; AWDX; (* 10-17 *)
   AWDX; AWDX; AWDX; AWDX; AWDX; AWDX; AWDX; AWDX; (* 18-1f *)
   ASPX; AWDX; AWDX; AWDX; AWDX; AWDX; AWDX; AWDX; (* 20-27 *)
   AWDX; AWDX; AWDX; AWDX; AWDX; AWDX; AWDX; AWDX; (* 28-2f *)
   AWDX; AWDX; AWDX; AWDX; AWDX; AWDX; AWDX; AWDX; (* 30-37 *)
   AWDX; AWDX; AWDX; AWDX; AWDX; AWDX; AWDX; AWDX; (* 38-3f *)
   AWDX; AWDX; AWDX; AWDX; AWDX; AWDX; AWDX; AWDX; (* 40-47 *)
   AWDX; AWDX; AWDX; AWDX; AWDX; AWDX; AWDX; AWDX; (* 48-4f *)
   AWDX; AWDX; AWDX; AWDX; AWDX; AWDX; AWDX; AWDX; (* 50-57 *)
   AWDX; AWDX; AWDX; AWDX; AWDX; AWDX; AWDX; AWDX; (* 58-5f *)
   AWDX; AWDX; AWDX; AWDX; AWDX; AWDX; AWDX; AWDX; (* 60-67 *)
   AWDX; AWDX; AWDX; AWDX; AWDX; AWDX; AWDX; AWDX; (* 68-6f *)
   AWDX; AWDX; AWDX; AWDX; AWDX; AWDX; AWDX; AWDX; (* 70-77 *)
   AWDX; AWDX; AWDX; AWDX; AWDX; AWDX; AWDX; AWDX; (* 78-7f *)
   AC2R; AC2R; AC2R; AC2R; AC2R; AC2R; AC2R; AC2R; (* 80-87 *)
   AC2R; AC2R; AC2R; AC2R; AC2R; AC2R; AC2R; AC2R; (* 88-8f *)
   AC2R; AC2R; AC2R; AC2R; AC2R; AC2R; AC2R; AC2R; (* 90-97 *)
   AC2R; AC2R; AC2R; AC2R; AC2R; AC2R; AC2R; AC2R; (* 98-9f *)
   AC2R; AC2R; AC2R; AC2R; AC2R; AC2R; AC2R; AC2R; (* a0-a7 *)
   AC2R; AC2R; AC2R; AC2R; AC2R; AC2R; AC2R; AC2R; (* a8-af *)
   AC2R; AC2R; AC2R; AC2R; AC2R; AC2R; AC2R; AC2R; (* b0-b7 *)
   AC2R; AC2R; AC2R; AC2R; AC2R; AC2R; AC2R; AC2R; (* b8-bf *)
   AC2X; AC2X; AC2X; AC2X; AC2X; AC2X; AC2X; AC2X; (* c0-c7 *)
   AC2X; AC2X; AC2X; AC2X; AC2X; AC2X; AC2X; AC2X; (* c8-cf *)
   AC2X; AC2X; AC2X; AC2X; AC2X; AC2X; AC2X; AC2X; (* d0-d7 *)
   AC2X; AC2X; AC2X; AC2X; AC2X; AC2X; AC2X; AC2X; (* d8-df *)
   AC3X; AC3X; AC3X; AC3X; AC3X; AC3X; AC3X; AC3X; (* e0-e7 *)
   AC3X; AC3X; AC3X; AC3X; AC3X; AC3X; AC3X; AC3X; (* e8-ef *)
   AWDX; AWDX; AWDX; AWDX; AWDX; AWDX; AWDX; AWDX; (* f0-f7 *)
   AWDX; AWDX; AWDX; AWDX; AWDX; AWDX; AWDX; AWDX (* f8-ff *) ].

(** ** The stepping loop of [count] *)

(** The local variable [state] of [count] is a slice that always aliases one
    of the four tables; it is modelled by the name of the table. *)
Inductive state : Type := Statesp | Statewd | Statec2 | Statec3.

Definition table (st : state) : list action :=
  match st with
  | Statesp => statesp
  | Statewd => statewd
  | Statec2 => statec2
  | Statec3 => statec3
  end.

(** [state[buf[i]]]; every table has 256 entries, so the default of [nth] is
    never returned (lemma [table_length]). *)
Definition lookup (st : state) (b : byte) : action :=
  nth (Byte.to_nat b) (table st) AWD.

Definition incr_lines (n : counter) : counter :=
  mkCounter (U64.incr (lines n)) (words n) (chars n) (errors n) (bytes n).
Definition incr_words (n : counter) : counter :=
  mkCounter (lines n) (U64.incr (words n)) (chars n) (errors n) (bytes n).
Definition decr_chars (n : counter) : counter :=
  mkCounter (lines n) (words n) (U64.decr (chars n)) (errors n) (bytes n).
Definition incr_errors (n : counter) : counter :=
  mkCounter (lines n) (words n) (chars n) (U64.incr (errors n)) (bytes n).

(** The [switch] of the inner loop: the new value of [state] and of [*n]. *)
Definition switch (a : action) (n : counter) : state * counter :=
  match a with
  | AC2   => (Statec2, n)
  | AC2R  => (Statec2, decr_chars n)
  | AC2W  => (Statec2, incr_words n)
  | AC2X  => (Statec2, incr_errors n)
  | AC3   => (Statec3, n)
  | AC3W  => (Statec3, incr_words n)
  | AC3X  => (Statec3, incr_errors n)
  | ASP   => (Statesp, n)
  | ASPN  => (Statesp, incr_lines n)
  | ASPNX => (Statesp, incr_errors (incr_lines n))
  | ASPX  => (Statesp, incr_errors n)
  | AWD   => (Statewd, n)
  | AWDR  => (Statewd, decr_chars n)
  | AWDW  => (Statewd, incr_words n)
  | AWDWX => (Statewd, incr_errors (incr_words n))
  | AWDX  => (Statewd, incr_errors n)
  end.

(** One iteration of [for i := 0; i < nr; i++]. *)
Definition step (sn : state * counter) (b : byte) : state * counter :=
  switch (lookup (fst sn) b) (snd sn).

(** The whole inner loop over the bytes [buf[0..nr)] of one chunk. *)
Definition scan (st : state) (n : counter) (buf : list byte) : state * counter :=
  fold_left step buf (st, n).

(** [n.bytes += uint64(nr); n.chars += uint64(nr)].  [nr] is a non-negative
    [int] here, so the conversion keeps its value. *)
Definition add_read (n : counter) (nr : Z) : counter :=
  mkCounter (lines n) (words n) (U64.add (chars n) nr) (errors n)
            (U64.add (bytes n) nr).

(** What one pass of the outer loop does with a chunk of [nr > 0] bytes. *)
Definition process_chunk (st : state) (n : counter) (chunk : list byte)
  : state * counter :=
  scan st (add_read n (Z.of_nat (List.length chunk))) chunk.

(** The decoder state and the counters threaded from one chunk to the next. *)
Definition feed (sn : state * counter) (chunk : list byte) : state * counter :=
  process_chunk (fst sn) (snd sn) chunk.

(** ** The process: standard streams and [os.Exit] *)

Record console : Type := mkConsole { stdout : string; stderr : string }.

Definition empty_console : console := mkConsole "" "".

(** A computation either returns a value or leaves through [os.Exit]. *)
Inductive outcome (A : Type) : Type :=
  | Ret (a : A)
  | Exit (status : Z).
Arguments Ret {A} a.
Arguments Exit {A} status.

Definition proc (A : Type) : Type := console -> outcome A * console.

Definition ret {A} (a : A) : proc A := fun k => (Ret a, k).

Definition bind {A B} (m : proc A) (f : A -> proc B) : proc B :=
  fun k => match m k with
           | (Ret a, k') => f a k'
           | (Exit s, k') => (Exit s, k')
           end.

Definition os_Exit {A} (status : Z) : proc A := fun k => (Exit status, k).

Definition write_stdout (s : string) : proc unit :=
  fun k => (Ret tt, mkConsole (stdout k ++ s)%string (stderr k)).

Definition write_stderr (s : string) : proc unit :=
  fun k => (Ret tt, mkConsole (stdout k) (stderr k ++ s)%string).

Notation "x <- m ;; f" := (bind m (fun x => f))
  (at level 61, m at next level, right associativity).
Notation "m ;;; f" := (bind m (fun _ => f))
  (at level 61, right associativity).

(** ** Files *)

(** The result of one call [f.Read(buf[:])]: the bytes it stored at the front
    of [buf] and the error value it returned ([None] for [nil]).  The number
    [nr] it returns is the number of bytes stored; [os.File.Read] never
    returns a negative count, and returns [0] together with [io.EOF] at the
    end of the file. *)
Record read : Type := mkRead { rd_buf : list byte; rd_err : option string }.

Definition rd_nr (r : read) : Z := Z.of_nat (List.length (rd_buf r)).

(** An open [*os.File]: its name and the results of the successive [Read]
    calls; once the list is exhausted every further call returns [0, io.EOF]. *)
Record file : Type := mkFile { fname : string; freads : list read }.

Definition NBUF : Z := 8 * 1024.

Definition newline : string := String (Ascii.ascii_of_nat 10) EmptyString.

Definition error_text (er : option string) : string :=
  match er with Some e => e | None => "" end.

(** The outer [for] loop of [count], one list element per [Read]. *)
Fixpoint read_loop (name : string) (st : state) (n : counter)
    (reads : list read) : proc (state * counter) :=
  match reads with
  | [] => ret (st, n)
  | r :: rest =>
      let nr := rd_nr r in
      if nr =? 0 then ret (st, n)
      else if nr <? 0 then
        write_stderr ("wc: error reading from " ++ name ++ ": "
                        ++ error_text (rd_err r) ++ newline)%string ;;;
        os_Exit 1
      else
        let n := add_read n nr in
        let (st', n') := scan st n (rd_buf r) in
        read_loop name st' n' rest
  end.

(** [func count(n *counter, f *os.File)]: the counter passed in is zeroed,
    then the file is read to its end.  The result is the final value of
    [*n]; the final value of the local [state] is given by [count_state]. *)
Definition count_loop (n : counter) (f : file) : proc (state * counter) :=
  let n := mkCounter 0 0 0 0 0 in
  read_loop (fname f) Statesp n (freads f).

Definition count (n : counter) (f : file) : proc counter :=
  sn <- count_loop n f ;; ret (snd sn).

(** ** Reporting *)

(** The values of the five flag variables [*lflag] ... [*bflag]. *)
Record flags : Type := mkFlags
  { lflag : bool; wflag : bool; cflag : bool; eflag : bool; bflag : bool }.

Fixpoint spaces (k : nat) : string :=
  match k with
  | O => EmptyString
  | S k' => String " " (spaces k')
  end.

(** [fmt.Sprintf("%7d", x)] for an unsigned [x]: the decimal digits, padded
    with spaces on the left up to seven characters. *)
Definition decimal (x : Z) : string :=
  NilZero.string_of_uint (N.to_uint (Z.to_N x)).

Definition Sprintf_7d (x : Z) : string :=
  let d := decimal x in (spaces (7 - String.length d) ++ d)%string.

(** The string [s] that [report] builds. *)
Definition report_line (fl : flags) (c : counter) (name : string) : string :=
  let s := EmptyString in
  let s := if lflag fl then (s ++ Sprintf_7d (lines c))%string else s in
  let s := if wflag fl then (s ++ Sprintf_7d (words c))%string else s in
  let s := if cflag fl then (s ++ Sprintf_7d (chars c))%string else s in
  let s := if eflag fl then (s ++ Sprintf_7d (errors c))%string else s in
  let s := if bflag fl then (s ++ Sprintf_7d (bytes c))%string else s in
  (s ++ " " ++ name ++ newline)%string.

(** [func report(c *counter, name string)] *)
Definition report (fl : flags) (c : counter) (name : string) : proc unit :=
  write_stdout (report_line fl c name).

(** ** The command line and [main] *)

(** What [flag.Parse] leaves behind: for each of the five boolean flags the
    value given on the command line, if the flag occurs there ([-l] gives
    [Some true], [-l=false] gives [Some false]). *)
Record options : Type := mkOptions
  { opt_l : option bool; opt_w : option bool; opt_c : option bool;
    opt_e : option bool; opt_b : option bool }.

Definition no_options : options := mkOptions None None None None None.

Definition is_set (o : option bool) : Z :=
  match o with Some _ => 1 | None => 0 end.

(** [flag.NFlag()]: the number of flags that have been set. *)
Definition NFlag (o : options) : Z :=
  is_set (opt_l o) + is_set (opt_w o) + is_set (opt_c o)
  + is_set (opt_e o) + is_set (opt_b o).

(** The value of a flag variable after [flag.Parse]; the default is [false]. *)
Definition flag_value (o : option bool) : bool :=
  match o with Some v => v | None => false end.

Definition parsed_flags (o : options) : flags :=
  mkFlags (flag_value (opt_l o)) (flag_value (opt_w o)) (flag_value (opt_c o))
          (flag_value (opt_e o)) (flag_value (opt_b o)).

(** The flag variables as [main] leaves them before counting:
    [if flag.NFlag() == 0 { *lflag = true; *wflag = true; *cflag = true }]. *)
Definition effective_flags (o : options) : flags :=
  let fl := parsed_flags o in
  if NFlag o =? 0 then mkFlags true true true (eflag fl) (bflag fl) else fl.

(** A file name on the command line and what [os.Open] does with it. *)
Inductive opening : Type :=
  | Opens (reads : list read)
  | Fails (err : string).

Record argument : Type := mkArg { arg_name : string; arg_open : opening }.

(** [t.lines += n.lines; ...; t.bytes += n.bytes] *)
Definition accumulate (t n : counter) : counter :=
  mkCounter (U64.add (lines t) (lines n)) (U64.add (words t) (words n))
            (U64.add (chars t) (chars n)) (U64.add (errors t) (errors n))
            (U64.add (bytes t) (bytes n)).

(** The loop [for i := 0; i < flag.NArg(); i++] of [main]; it carries the
    two counters [*n] and [*t]. *)
Fixpoint arg_loop (fl : flags) (args : list argument) (n t : counter)
  : proc (counter * counter) :=
  match args with
  | [] => ret (n, t)
  | a :: rest =>
      match arg_open a with
      | Fails err =>
          write_stderr ("wc: can't open " ++ arg_name a ++ ": error "
                          ++ err ++ newline)%string ;;;
          os_Exit 1
      | Opens reads =>
          n' <- count n (mkFile (arg_name a) reads) ;;
          let t' := accumulate t n' in
          report fl n' (arg_name a) ;;;
          arg_loop fl rest n' t'
      end
  end.

Definition NArg (args : list argument) : Z := Z.of_nat (List.length args).

Definition os_Stdin (stdin_reads : list read) : file :=
  mkFile "/dev/stdin" stdin_reads.

(** [func main()], given what a successful [flag.Parse] found, what standard
    input delivers and the file arguments.  The deferred [f.Close()] calls
    write nothing and are left out; [os.Exit] does not run them. *)
Definition main (o : options) (stdin_reads : list read)
    (args : list argument) : proc unit :=
  let n := mkCounter 0 0 0 0 0 in
  let t := mkCounter 0 0 0 0 0 in
  let fl := effective_flags o in
  n <- (if NArg args =? 0 then
          n' <- count n (os_Stdin stdin_reads) ;;
          report fl n' "" ;;;
          ret n'
        else ret n) ;;
  nt <- arg_loop fl args n t ;;
  if NArg args >? 1 then report fl (snd nt) "total" else ret tt.

(** Running the program: what was written and the exit status. *)
Definition run_main (o : options) (stdin_reads : list read)
    (args : list argument) : Z * console :=
  match main o stdin_reads args empty_console with
  | (Ret _, k) => (0, k)
  | (Exit s, k) => (s, k)
  end.

(** ** Byte classes *)

Definition byte_in (lo hi : N) (b : byte) : bool :=
  (N.leb lo (Byte.to_N b) && N.leb (Byte.to_N b) hi)%bool.

(** Tab, newline and space: the only bytes that separate words. *)
Definition is_space (b : byte) : bool :=
  match b with x09 | x0a | x20 => true | _ => false end.

Definition is_newline (b : byte) : bool :=
  match b with x0a => true | _ => false end.

Definition is_cont (b : byte) : bool := byte_in 128 191 b.     (* 80-bf *)
Definition is_lead2 (b : byte) : bool := byte_in 192 223 b.    (* c0-df *)
Definition is_lead3 (b : byte) : bool := byte_in 224 239 b.    (* e0-ef *)
Definition is_bad_lead (b : byte) : bool := byte_in 240 255 b. (* f0-ff *)

(** ASCII letters and digits. *)
Definition is_alnum (b : byte) : bool :=
  (byte_in 48 57 b || byte_in 65 90 b || byte_in 97 122 b)%bool.

Definition chunk_of_string (s : string) : list byte := list_byte_of_string s.

Definition ok_read (chunk : list byte) : read := mkRead chunk None.

(** ** The transition rules

    The table of the comment that precedes the action codes in the source:
<<
        |                character
  state |09,20| 0a  |00-7f|80-bf|c0-df|e0-ef|f0-ff
 -------+-----+-----+-----+-----+-----+-----+-----
 statesp|ASP  |ASPN |AWDW |AWDWX|AC2W |AC3W |AWDWX
 statewd|ASP  |ASPN |AWD  |AWDX |AC2  |AC3  |AWDX
 statec2|ASPX |ASPNX|AWDX |AWDR |AC2X |AC3X |AWDX
 statec3|ASPX |ASPNX|AWDX |AC2R |AC2X |AC3X |AWDX
>>
    [rule] reads this table; [lookup_rule] shows that the four 256-entry
    tables agree with it at every byte. *)

Inductive byte_class : Type :=
  | Blank | Newline | Plain | Cont | Lead2 | Lead3 | BadLead.

Definition classify (b : byte) : byte_class :=
  if is_newline b then Newline
  else if is_space b then Blank
  else if is_cont b then Cont
  else if is_lead2 b then Lead2
  else if is_lead3 b then Lead3
  else if is_bad_lead b then BadLead
  else Plain.

Definition rule (st : state) (c : byte_class) : action :=
  match st, c with
  | Statesp, Blank => ASP  | Statesp, Newline => ASPN | Statesp, Plain => AWDW
  | Statesp, Cont => AWDWX | Statesp, Lead2 => AC2W   | Statesp, Lead3 => AC3W
  | Statesp, BadLead => AWDWX
  | Statewd, Blank => ASP  | Statewd, Newline => ASPN | Statewd, Plain => AWD
  | Statewd, Cont => AWDX  | Statewd, Lead2 => AC2    | Statewd, Lead3 => AC3
  | Statewd, BadLead => AWDX
  | Statec2, Blank => ASPX | Statec2, Newline => ASPNX | Statec2, Plain => AWDX
  | Statec2, Cont => AWDR  | Statec2, Lead2 => AC2X   | Statec2, Lead3 => AC3X
  | Statec2, BadLead => AWDX
  | Statec3, Blank => ASPX | Statec3, Newline => ASPNX | Statec3, Plain => AWDX
  | Statec3, Cont => AC2R  | Statec3, Lead2 => AC2X   | Statec3, Lead3 => AC3X
  | Statec3, BadLead => AWDX
  end.

(** ** Exact tallies

    The effect of an action as a target state and a vector of signed
    increments, and their sum along a stream in unbounded integers.  The
    counters that [count] computes are these sums reduced modulo [2^64]
    (theorem [count_tally]). *)

Definition target (a : action) : state :=
  match a with
  | AC2 | AC2R | AC2W | AC2X => Statec2
  | AC3 | AC3W | AC3X => Statec3
  | ASP | ASPN | ASPNX | ASPX => Statesp
  | AWD | AWDR | AWDW | AWDWX | AWDX => Statewd
  end.

Definition delta (a : action) : counter :=
  match a with
  | AC2 | AC3 | ASP | AWD => mkCounter 0 0 0 0 0
  | AC2R | AWDR => mkCounter 0 0 (-1) 0 0
  | AC2W | AC3W | AWDW => mkCounter 0 1 0 0 0
  | AC2X | AC3X | ASPX | AWDX => mkCounter 0 0 0 1 0
  | ASPN => mkCounter 1 0 0 0 0
  | ASPNX => mkCounter 1 0 0 1 0
  | AWDWX => mkCounter 0 1 0 1 0
  end.

(** Componentwise sum, without reduction. *)
Definition cadd (a b : counter) : counter :=
  mkCounter (lines a + lines b) (words a + words b) (chars a + chars b)
            (errors a + errors b) (bytes a + bytes b).

(** Componentwise reduction to [uint64]. *)
Definition cwrap (a : counter) : counter :=
  mkCounter (U64.wrap (lines a)) (U64.wrap (words a)) (U64.wrap (chars a))
            (U64.wrap (errors a)) (U64.wrap (bytes a)).

Definition valid (a : counter) : Prop :=
  U64.in_range (lines a) /\ U64.in_range (words a) /\ U64.in_range (chars a)
  /\ U64.in_range (errors a) /\ U64.in_range (bytes a).

(** The state reached from [st] after the bytes of [s]. *)
Fixpoint run (st : state) (s : list byte) : state :=
  match s with
  | [] => st
  | b :: s' => run (target (lookup st b)) s'
  end.

(** The increments that the switch applies along [s], started in [st]. *)
Fixpoint effects (st : state) (s : list byte) : counter :=
  match s with
  | [] => zero_counter
  | b :: s' => cadd (delta (lookup st b)) (effects (target (lookup st b)) s')
  end.

(** The provisional increments [n.bytes += nr; n.chars += nr]. *)
Definition bulk (k : Z) : counter := mkCounter 0 0 k 0 k.

(** The exact tally of a stream: the bulk increments for its length and the
    effects of the switch from the initial state. *)
Definition tally (s : list byte) : counter :=
  cadd (bulk (Z.of_nat (List.length s))) (effects Statesp s).

(** The bytes that [count] consumes from a sequence of [Read] results: the
    chunks up to the first call that returns no byte. *)
Fixpoint stream (reads : list read) : list byte :=
  match reads with
  | [] => []
  | r :: rest =>
      match rd_buf r with
      | [] => []
      | _ :: _ => rd_buf r ++ stream rest
      end
  end.

(** ** Notions used in the statements *)

(** The value of a computation that returns, [d] if it exits. *)
Definition value_of {A : Type} (d : A) (r : outcome A * console) : A :=
  match r with
  | (Ret a, _) => a
  | (Exit _, _) => d
  end.

(** The counters and the final state that [count] leaves for a file
    (lemma [count_returns]: it always returns them). *)
Definition counters_of (f : file) : counter :=
  value_of zero_counter (count zero_counter f empty_console).

Definition final_state (f : file) : state :=
  fst (value_of (Statesp, zero_counter)
         (count_loop zero_counter f empty_console)).

(** A file that delivers the given chunks, one per [Read], without error. *)
Definition file_of_chunks (name : string) (chunks : list (list byte)) : file :=
  mkFile name (map ok_read chunks).

Definition newlines (s : list byte) : nat :=
  List.length (filter is_newline s).

Definition blanks (s : list byte) : Prop := Forall (fun b => is_space b = true) s.

Definition starts_word (s : list byte) : bool :=
  match s with
  | c :: _ => negb (is_space c)
  | [] => false
  end.

(** The maximal runs of bytes other than tab, newline and space, in order. *)
Fixpoint fields (s : list byte) : list (list byte) :=
  match s with
  | [] => []
  | b :: s' =>
      if is_space b then fields s'
      else if starts_word s' then
        match fields s' with
        | w :: ws => (b :: w) :: ws
        | [] => [[b]]
        end
      else [b] :: fields s'
  end.

Definition maximal_runs (s : list byte) : nat := List.length (fields s).

(** A measure of streams that blanks at either end, and the length of a run
    of blanks inside, do not change. *)
Definition blank_insensitive (m : list byte -> nat) : Prop :=
  (forall l s t, blanks l -> blanks t -> m (l ++ s ++ t) = m s)
  /\ (forall a w l b, is_space w = true -> blanks l ->
        m (a ++ w :: l ++ b) = m (a ++ w :: b)).

(** The states outside a multi-byte sequence. *)
Definition text_state (st : state) : Prop := st = Statesp \/ st = Statewd.

Definition at_boundary (st : state) : bool :=
  match st with Statesp => true | _ => false end.

(** An incomplete sequence is pending in the states that expect a
    continuation byte. *)
Definition pending (st : state) : Z :=
  match st with
  | Statec2 | Statec3 => 1
  | Statesp | Statewd => 0
  end.

(** The shapes of a multi-byte sequence that still lacks a continuation
    byte: a lead byte alone, or a three-byte lead with one continuation. *)
Definition incomplete (q : list byte) : bool :=
  match q with
  | [l] => (is_lead2 l || is_lead3 l)%bool
  | [l; c] => (is_lead3 l && is_cont c)%bool
  | _ => false
  end.

(** Resynchronisation as the specification words it: count one bad
    sequence for the broken sequence, then treat the byte as the table
    does when it arrives in state [from]. *)
Definition spec_resync (from : state) (n : counter) (b : byte)
  : state * counter :=
  step (from, incr_errors n) b.

(** A stream as a file that delivers it in one read. *)
Definition file_of_stream (s : list byte) : file := file_of_chunks "" [s].

(** The file that [os.Open] returns for an argument that can be opened. *)
Definition arg_file (a : argument) : file :=
  match arg_open a with
  | Opens reads => mkFile (arg_name a) reads
  | Fails _ => mkFile (arg_name a) []
  end.

Definition opens (a : argument) : Prop :=
  exists reads, arg_open a = Opens reads.

(** The counters of each source, in the order of the command line. *)
Definition per_source (args : list argument) : list counter :=
  map (fun a => counters_of (arg_file a)) args.

(** The report lines of the sources, one after the other. *)
Fixpoint report_lines (fl : flags) (args : list argument) : string :=
  match args with
  | [] => EmptyString
  | a :: rest =>
      (report_line fl (counters_of (arg_file a)) (arg_name a)
         ++ report_lines fl rest)%string
  end.

(** The elementwise sum of a list of counters, in unbounded integers. *)
Definition csum (cs : list counter) : counter :=
  fold_right cadd zero_counter cs.

(** The line for standard input, read when there is no file argument. *)
Definition stdin_line (fl : flags) (stdin_reads : list read)
    (args : list argument) : string :=
  if NArg args =? 0
  then report_line fl (counters_of (os_Stdin stdin_reads)) ""
  else EmptyString.

(** The line of totals, written when there are several file arguments. *)
Definition total_line (fl : flags) (args : list argument) : string :=
  if NArg args >? 1
  then report_line fl (cwrap (csum (per_source args))) "total"
  else EmptyString.

(** Sample inputs. *)
Definition sample_text : file :=
  file_of_chunks "a" [[x67; x6f; x20]; [x74; x6f; x0a]; [x0a; x20; x69; x74]].

Definition sample_prefix : file := file_of_stream [x61; x20].
Definition sample_two_byte : file :=
  file_of_chunks "b" [[x61; x20; xc3]; [xa9]].
Definition sample_three_byte : file :=
  file_of_chunks "c" [[x61; x20; xe2; x82]; [xac]].
Definition sample_lone_lead : file := file_of_stream [x61; x20; xc3].
Definition sample_partial : file := file_of_chunks "d" [[x61; xe2]; [x82]].

(** A file whose second read fails. *)
Definition sample_read_error : list read :=
  [ok_read [x61; x62; x0a];
   mkRead [] (Some "input/output error"%string);
   ok_read [x63; x0a]].

(** A directory: it can be opened, and its first read fails. *)
Definition sample_directory : list read :=
  [mkRead [] (Some "is a directory"%string)].

Definition sample_args : list argument :=
  [mkArg "a" (Opens [ok_read [x67; x6f; x0a]]);
   mkArg "b" (Opens [ok_read [xc3; xa9; x20; xe0]; ok_read [x41; x80]])].

(** ** Further notions *)

Definition is_ascii (b : byte) : bool := byte_in 0 127 b.            (* 00-7f *)

(** The number of bytes of a stream that satisfy a test. *)
Definition count_bytes (p : byte -> bool) (s : list byte) : nat :=
  List.length (filter p s).

(** A well-formed unit: one ASCII byte, a two-byte lead with one
    continuation, or a three-byte lead with two continuations. *)
Definition unit_ok (u : list byte) : bool :=
  match u with
  | [a] => is_ascii a
  | [l; c] => (is_lead2 l && is_cont c)%bool
  | [l; c; d] => (is_lead3 l && is_cont c && is_cont d)%bool
  | _ => false
  end.

(** The continuation bytes a state still allows to complete a sequence. *)
Definition owed (st : state) : Z :=
  match st with
  | Statesp | Statewd => 0
  | Statec2 => 1
  | Statec3 => 2
  end.

(** The stream of a file is shorter than [2^64] bytes. *)
Definition short (f : file) : Prop :=
  Z.of_nat (List.length (stream (freads f))) < U64.modulus.

(** What completes the sequence that a state is in. *)
Definition completes (st : state) (q : list byte) : Prop :=
  match st with
  | Statesp | Statewd => q = []
  | Statec2 => exists c, q = [c] /\ is_cont c = true
  | Statec3 => exists c d, q = [c; d] /\ is_cont c = true /\ is_cont d = true
  end.

(** The message of [main] for an argument that [os.Open] rejects. *)
Definition open_message (a : argument) (err : string) : string :=
  ("wc: can't open " ++ arg_name a ++ ": error " ++ err ++ newline)%string.

(** The total that the argument loop leaves in [*t]. *)
Definition loop_total (r : outcome (counter * counter) * console) : counter :=
  snd (value_of (zero_counter, zero_counter) r).

Definition sample_missing : list argument :=
  [mkArg "a" (Opens [ok_read [x67; x6f; x0a]]);
   mkArg "gone" (Fails "no such file or directory");
   mkArg "b" (Opens [ok_read [x61]])].

Definition sample_mixed : file :=
  file_of_chunks "m" [[x61; xc3]; [xa9; x0a; xe2; x82]; [xac; x20; x80; xf5]].

(** * Properties *)

Example scenario_go :
  count zero_counter (mkFile "f" [ok_read (chunk_of_string ("go" ++ newline))])
        empty_console
  = (Ret (mkCounter 1 1 3 0 3), empty_console).
Proof. vm_compute. reflexivity. Qed.

Example scenario_two_byte :
  counters_of (file_of_stream [xc3; xa9]) = mkCounter 0 1 1 0 2.
Proof. reflexivity. Qed.

Example scenario_stray_continuation :
  counters_of (file_of_stream [x80]) = mkCounter 0 1 1 1 1.
Proof. reflexivity. Qed.

Example scenario_broken_lead :
  counters_of (file_of_stream [xe0; x41]) = mkCounter 0 1 2 1 2
  /\ final_state (file_of_stream [xe0; x41]) = Statewd.
Proof. split; reflexivity. Qed.

Example fields_example :
  fields (chunk_of_string "  go to   it ")
  = map chunk_of_string ["go"; "to"; "it"]%string.
Proof. reflexivity. Qed.


(** ** Arithmetic of [uint64] *)

Lemma modulus_pos : 0 < U64.modulus.
Proof. reflexivity. Qed.

Lemma wrap_in_range (z : Z) : U64.in_range (U64.wrap z).
Proof. apply Z.mod_pos_bound, modulus_pos. Qed.

Lemma wrap_small (z : Z) : U64.in_range z -> U64.wrap z = z.
Proof. intros H. apply Z.mod_small, H. Qed.

Lemma wrap_wrap (z : Z) : U64.wrap (U64.wrap z) = U64.wrap z.
Proof. apply wrap_small, wrap_in_range. Qed.

Lemma wrap_add_l (x y : Z) : U64.wrap (U64.wrap x + y) = U64.wrap (x + y).
Proof. apply Zplus_mod_idemp_l. Qed.

Lemma wrap_add_r (x y : Z) : U64.wrap (x + U64.wrap y) = U64.wrap (x + y).
Proof. apply Zplus_mod_idemp_r. Qed.

(** ** Counters *)

Lemma counter_eq (a b : counter) :
  lines a = lines b -> words a = words b -> chars a = chars b ->
  errors a = errors b -> bytes a = bytes b -> a = b.
Proof. destruct a, b; simpl; intros; subst; reflexivity. Qed.

Lemma cadd_assoc (a b c : counter) : cadd (cadd a b) c = cadd a (cadd b c).
Proof. apply counter_eq; simpl; lia. Qed.

Lemma cadd_comm (a b : counter) : cadd a b = cadd b a.
Proof. apply counter_eq; simpl; lia. Qed.

Lemma cadd_zero_r (a : counter) : cadd a zero_counter = a.
Proof. apply counter_eq; simpl; lia. Qed.

Lemma cadd_zero_l (a : counter) : cadd zero_counter a = a.
Proof. apply counter_eq; simpl; lia. Qed.

Lemma valid_cwrap (a : counter) : valid (cwrap a).
Proof. repeat split; apply wrap_in_range. Qed.

Lemma cwrap_valid (a : counter) : valid a -> cwrap a = a.
Proof.
  intros (Hl & Hw & Hc & He & Hb).
  apply counter_eq; simpl; apply wrap_small; assumption.
Qed.

Lemma cwrap_cadd_l (a b : counter) :
  cwrap (cadd (cwrap a) b) = cwrap (cadd a b).
Proof. apply counter_eq; simpl; apply wrap_add_l. Qed.

Lemma valid_zero : valid zero_counter.
Proof. repeat split; simpl; try lia; reflexivity. Qed.

(** ** The switch *)

(** On a counter whose fields are in range, the switch moves to the target
    of the action and adds its increments modulo [2^64]. *)
Lemma switch_spec (a : action) (n : counter) :
  valid n -> switch a n = (target a, cwrap (cadd n (delta a))).
Proof.
  intros (Hl & Hw & Hc & He & Hb).
  destruct a; simpl; f_equal; apply counter_eq; simpl;
    unfold U64.incr, U64.decr;
    rewrite ?Z.add_0_r; try reflexivity;
    symmetry; apply wrap_small; assumption.
Qed.

Lemma add_read_spec (n : counter) (k : Z) :
  valid n -> add_read n k = cwrap (cadd n (bulk k)).
Proof.
  intros (Hl & Hw & Hc & He & Hb).
  apply counter_eq; simpl; unfold U64.add;
    rewrite ?Z.add_0_r; try reflexivity;
    symmetry; apply wrap_small; assumption.
Qed.

(** ** The inner loop *)

Lemma scan_spec (s : list byte) : forall (st : state) (n : counter),
  valid n -> scan st n s = (run st s, cwrap (cadd n (effects st s))).
Proof.
  unfold scan.
  induction s as [|b s IH]; intros st n Hn; cbn [fold_left run effects].
  - rewrite cadd_zero_r, cwrap_valid by assumption. reflexivity.
  - unfold step at 2. cbn [fst snd]. rewrite switch_spec by assumption.
    rewrite IH by apply valid_cwrap.
    rewrite cwrap_cadd_l, cadd_assoc. reflexivity.
Qed.

Lemma run_app (s1 s2 : list byte) (st : state) :
  run st (s1 ++ s2) = run (run st s1) s2.
Proof. revert st. induction s1 as [|b s1 IH]; intros st; simpl; auto. Qed.

Lemma effects_app (s1 s2 : list byte) (st : state) :
  effects st (s1 ++ s2) = cadd (effects st s1) (effects (run st s1) s2).
Proof.
  revert st. induction s1 as [|b s1 IH]; intros st; simpl.
  - rewrite cadd_zero_l. reflexivity.
  - rewrite IH, cadd_assoc. reflexivity.
Qed.

Lemma bulk_add (j k : Z) : cadd (bulk j) (bulk k) = bulk (j + k).
Proof. apply counter_eq; simpl; lia. Qed.

Lemma cadd_regroup (n b1 e1 b2 e2 : counter) :
  cadd (cadd n b1) (cadd e1 (cadd b2 e2))
  = cadd n (cadd (cadd b1 b2) (cadd e1 e2)).
Proof. apply counter_eq; simpl; lia. Qed.

(** ** The outer loop *)

(** The read loop always returns: it leaves through neither of its exits
    before the first empty read, and the empty read ends it.  Its result is
    the state and the tally of the bytes consumed. *)
Lemma read_loop_spec (name : string) (reads : list read) :
  forall (st : state) (n : counter) (k : console),
  valid n ->
  read_loop name st n reads k
  = (Ret (run st (stream reads),
          cwrap (cadd n (cadd (bulk (Z.of_nat (List.length (stream reads))))
                              (effects st (stream reads))))), k).
Proof.
  assert (Hnil : forall st n, valid n ->
            cwrap (cadd n (cadd (bulk (Z.of_nat (@List.length byte [])))
                                (effects st []))) = n).
  { intros st n Hn. cbn [List.length effects Z.of_nat].
    change (bulk 0) with zero_counter.
    rewrite !cadd_zero_r. apply cwrap_valid, Hn. }
  induction reads as [|r reads IH]; intros st n k Hn;
    cbn [read_loop stream].
  - unfold ret. rewrite Hnil by assumption. reflexivity.
  - unfold rd_nr. destruct (rd_buf r) as [|b buf] eqn:Hbuf.
    + cbn [List.length Z.of_nat Z.eqb]. unfold ret.
      rewrite Hnil by assumption. reflexivity.
    + replace (Z.of_nat (List.length (b :: buf)) =? 0) with false
        by (symmetry; apply Z.eqb_neq; simpl List.length; lia).
      replace (Z.of_nat (List.length (b :: buf)) <? 0) with false
        by (symmetry; apply Z.ltb_ge; lia).
      rewrite add_read_spec by assumption.
      rewrite scan_spec by apply valid_cwrap.
      rewrite IH by apply valid_cwrap.
      rewrite run_app, effects_app, length_app, Nat2Z.inj_add, <- bulk_add.
      rewrite !cwrap_cadd_l, (cadd_assoc (cwrap _)), cwrap_cadd_l.
      rewrite cadd_regroup. reflexivity.
Qed.

(** [count] returns for every file, whatever counter it is handed and
    whatever errors the reads report; the counters it leaves are the exact
    tally of the bytes consumed, reduced modulo [2^64]. *)
Theorem count_loop_tally (n : counter) (f : file) (k : console) :
  count_loop n f k
  = (Ret (run Statesp (stream (freads f)), cwrap (tally (stream (freads f)))), k).
Proof.
  unfold count_loop. rewrite read_loop_spec by apply valid_zero.
  change (mkCounter 0 0 0 0 0) with zero_counter.
  rewrite cadd_zero_l. reflexivity.
Qed.

Theorem count_tally (n : counter) (f : file) (k : console) :
  count n f k = (Ret (cwrap (tally (stream (freads f)))), k).
Proof.
  unfold count, bind. rewrite count_loop_tally. reflexivity.
Qed.

Lemma count_returns (n : counter) (f : file) (k : console) :
  count n f k = (Ret (counters_of f), k).
Proof.
  unfold counters_of. rewrite !count_tally. reflexivity.
Qed.

Lemma counters_of_tally (f : file) :
  counters_of f = cwrap (tally (stream (freads f))).
Proof. unfold counters_of. rewrite count_tally. reflexivity. Qed.

Lemma final_state_run (f : file) :
  final_state f = run Statesp (stream (freads f)).
Proof. unfold final_state. rewrite count_loop_tally. reflexivity. Qed.

(** ** The tables *)

Lemma table_length (st : state) : List.length (table st) = 256%nat.
Proof. destruct st; reflexivity. Qed.

Lemma lookup_defined (st : state) (b : byte) :
  nth_error (table st) (Byte.to_nat b) = Some (lookup st b).
Proof. destruct st, b; reflexivity. Qed.

(** The action codes are sixteen different bytes, so the cases of the
    switch exclude one another. *)
Lemma action_code_range (a : action) : 0 <= action_code a < 16.
Proof. destruct a; cbn; lia. Qed.

Lemma action_code_inj (a b : action) : action_code a = action_code b -> a = b.
Proof. destruct a, b; intros H; try discriminate H; reflexivity. Qed.

(** The four tables hold exactly the rules of the comment. *)
Lemma lookup_rule (st : state) (b : byte) :
  lookup st b = rule st (classify b).
Proof. destruct st, b; reflexivity. Qed.

(** What the class of a byte says about the byte. *)
Lemma classify_spec (b : byte) :
  match classify b with
  | Blank => is_space b = true /\ is_newline b = false
  | Newline => is_newline b = true
  | Plain => is_space b = false /\ Byte.to_N b < 128
  | Cont => is_cont b = true
  | Lead2 => is_lead2 b = true
  | Lead3 => is_lead3 b = true
  | BadLead => is_bad_lead b = true
  end%N.
Proof. destruct b; vm_compute; auto. Qed.

Lemma classify_lead2 (b : byte) : is_lead2 b = true -> classify b = Lead2.
Proof. destruct b; intros H; try discriminate H; reflexivity. Qed.

Lemma classify_lead3 (b : byte) : is_lead3 b = true -> classify b = Lead3.
Proof. destruct b; intros H; try discriminate H; reflexivity. Qed.

Lemma classify_cont (b : byte) : is_cont b = true -> classify b = Cont.
Proof. destruct b; intros H; try discriminate H; reflexivity. Qed.

Lemma effects_bytes (s : list byte) : forall st, bytes (effects st s) = 0.
Proof.
  induction s as [|b s IH]; intros st; cbn [effects cadd bytes].
  - reflexivity.
  - rewrite IH. destruct (lookup st b); reflexivity.
Qed.

(** ** Lines *)

Lemma step_lines (st : state) (n : counter) (b : byte) :
  lines (snd (step (st, n) b))
  = if is_newline b then U64.incr (lines n) else lines n.
Proof. destruct st, b; reflexivity. Qed.

Lemma delta_lines (st : state) (b : byte) :
  lines (delta (lookup st b)) = if is_newline b then 1 else 0.
Proof. destruct st, b; reflexivity. Qed.

Lemma effects_lines (s : list byte) : forall st,
  lines (effects st s) = Z.of_nat (newlines s).
Proof.
  unfold newlines.
  induction s as [|b s IH]; intros st; cbn [effects filter].
  - reflexivity.
  - cbn [cadd lines]. rewrite delta_lines, IH.
    destruct (is_newline b); cbn [List.length]; lia.
Qed.

Lemma newlines_le_length (s : list byte) :
  (newlines s <= List.length s)%nat.
Proof. apply filter_length_le. Qed.

(** C3. For every file, [count] returns, and the [lines] counter it leaves is
    the number of bytes [0x0a] in the stream, as a [uint64]: the number modulo
    [2^64], hence the number itself for a stream shorter than [2^64] bytes.
    A newline adds one line in each of the four states, and no other byte
    adds any. *)
Theorem count_lines (n : counter) (f : file) (k : console) :
  count n f k = (Ret (counters_of f), k)
  /\ lines (counters_of f) = U64.wrap (Z.of_nat (newlines (stream (freads f))))
  /\ (Z.of_nat (List.length (stream (freads f))) < U64.modulus ->
      lines (counters_of f) = Z.of_nat (newlines (stream (freads f))))
  /\ (forall st m b, lines (snd (step (st, m) b))
                     = if is_newline b then U64.incr (lines m) else lines m).
Proof.
  assert (E : lines (counters_of f)
              = U64.wrap (Z.of_nat (newlines (stream (freads f))))).
  { rewrite counters_of_tally. unfold tally. cbn [cwrap cadd bulk lines].
    rewrite effects_lines. reflexivity. }
  split; [apply count_returns|].
  split; [exact E|].
  split; [|intros; apply step_lines].
  intros Hlen. rewrite E. apply wrap_small.
  pose proof (newlines_le_length (stream (freads f))).
  unfold U64.in_range. lia.
Qed.

(** The sample text, read in three chunks, has two newlines. *)
Lemma count_lines_witness :
  Z.of_nat (List.length (stream (freads sample_text))) < U64.modulus
  /\ lines (counters_of sample_text) = 2.
Proof.
  split; [reflexivity|].
  destruct (count_lines zero_counter sample_text empty_console)
    as (_ & _ & H & _).
  rewrite H; reflexivity.
Defined.

(** ** Plain text *)

Lemma text_byte (st : state) (b : byte) :
  text_state st -> (is_space b || is_alnum b)%bool = true ->
  text_state (target (lookup st b))
  /\ chars (delta (lookup st b)) = 0 /\ errors (delta (lookup st b)) = 0.
Proof.
  intros [-> | ->] Hb; destruct b; try discriminate Hb;
    (split; [first [left; reflexivity | right; reflexivity]
            | split; reflexivity]).
Qed.

Lemma text_effects (s : list byte) : forall st,
  text_state st ->
  Forall (fun b => (is_space b || is_alnum b)%bool = true) s ->
  chars (effects st s) = 0 /\ errors (effects st s) = 0.
Proof.
  induction s as [|b s IH]; intros st Hst Hs; cbn [effects].
  - split; reflexivity.
  - inversion Hs as [|? ? Hb Hs']; subst.
    destruct (text_byte st b Hst Hb) as (Ht & Hc & He).
    destruct (IH _ Ht Hs') as (Hc' & He').
    cbn [cadd chars errors]. lia.
Qed.

(** C6. For every file whose bytes are all tabs, newlines, spaces or ASCII
    letters and digits, [count] returns counters with no bad sequence and as
    many characters as bytes. *)
Theorem count_plain_text (n : counter) (f : file) (k : console) :
  Forall (fun b => (is_space b || is_alnum b)%bool = true) (stream (freads f)) ->
  count n f k = (Ret (counters_of f), k)
  /\ errors (counters_of f) = 0
  /\ chars (counters_of f) = bytes (counters_of f).
Proof.
  intros Hs. split; [apply count_returns|].
  rewrite counters_of_tally. unfold tally.
  destruct (text_effects _ Statesp (or_introl eq_refl) Hs) as (Hc & He).
  cbn [cwrap cadd bulk chars errors bytes]. rewrite Hc, He.
  split; [reflexivity|].
  f_equal. rewrite (effects_bytes _ Statesp). reflexivity.
Qed.

(** The sample text is plain: no bad sequence, as many characters as bytes. *)
Lemma count_plain_text_witness :
  Forall (fun b => (is_space b || is_alnum b)%bool = true)
         (stream (freads sample_text))
  /\ errors (counters_of sample_text) = 0
  /\ chars (counters_of sample_text) = bytes (counters_of sample_text).
Proof.
  assert (H : Forall (fun b => (is_space b || is_alnum b)%bool = true)
                     (stream (freads sample_text)))
    by (repeat constructor).
  split; [exact H|].
  exact (proj2 (count_plain_text zero_counter sample_text empty_console H)).
Defined.

(** ** Words *)

Lemma delta_words (st : state) (b : byte) :
  words (delta (lookup st b))
  = if (at_boundary st && negb (is_space b))%bool then 1 else 0.
Proof. destruct st, b; reflexivity. Qed.

(** The machine is at a word boundary exactly after a blank. *)
Lemma target_boundary (st : state) (b : byte) :
  at_boundary (target (lookup st b)) = is_space b.
Proof. destruct st, b; reflexivity. Qed.

Lemma fields_starts_word (s : list byte) :
  starts_word s = true -> fields s <> [].
Proof.
  destruct s as [|b s]; cbn [starts_word fields]; [discriminate|].
  intros Hb. apply negb_true_iff in Hb. rewrite Hb.
  destruct (starts_word s); [destruct (fields s)|]; discriminate.
Qed.

Lemma maximal_runs_cons (b : byte) (s : list byte) :
  Z.of_nat (maximal_runs (b :: s))
  = Z.of_nat (maximal_runs s)
    + (if is_space b then 0 else if starts_word s then 0 else 1).
Proof.
  unfold maximal_runs. cbn [fields].
  destruct (is_space b); [lia|].
  destruct (starts_word s) eqn:Hs.
  - apply fields_starts_word in Hs.
    destruct (fields s); [contradiction|]. cbn [List.length]. lia.
  - cbn [List.length]. lia.
Qed.

(** From the boundary state the switch counts one word per maximal run; from
    the other states the run in progress, if the stream continues it, has
    been counted already. *)
Lemma effects_words (s : list byte) : forall st,
  words (effects st s)
  = Z.of_nat (maximal_runs s)
    - (if at_boundary st then 0 else if starts_word s then 1 else 0).
Proof.
  induction s as [|b s IH]; intros st.
  - destruct st; reflexivity.
  - cbn [effects cadd words]. rewrite delta_words, IH, target_boundary.
    rewrite maximal_runs_cons. cbn [starts_word].
    destruct (at_boundary st), (is_space b), (starts_word s);
      cbn [andb negb]; lia.
Qed.

Lemma fields_length (s : list byte) :
  (maximal_runs s <= List.length s)%nat.
Proof.
  induction s as [|b s IH]; [apply le_n|].
  pose proof (maximal_runs_cons b s) as H. cbn [List.length].
  destruct (is_space b), (starts_word s); lia.
Qed.

(** Every field is a non-empty run without blanks, and the fields together
    are the non-blank bytes of the stream in order. *)
Lemma fields_sound (s : list byte) :
  Forall (fun w => w <> [] /\ forallb (fun b => negb (is_space b)) w = true)
         (fields s)
  /\ List.concat (fields s) = filter (fun b => negb (is_space b)) s.
Proof.
  induction s as [|b s (IHf & IHc)]; cbn [fields filter].
  - split; [constructor | reflexivity].
  - destruct (is_space b) eqn:Hb; cbn [negb]; [split; assumption|].
    destruct (starts_word s) eqn:Hs.
    + destruct (fields s) as [|w ws] eqn:Hf.
      * apply fields_starts_word in Hs. contradiction.
      * inversion IHf as [|? ? (Hw & Hall) Hws]; subst. split.
        -- constructor; [|assumption]. split; [discriminate|].
           cbn [forallb]. rewrite Hb, Hall. reflexivity.
        -- cbn [List.concat app] in *. rewrite IHc. reflexivity.
    + split.
      * constructor; [|assumption]. split; [discriminate|].
        cbn [forallb]. rewrite Hb. reflexivity.
      * cbn [List.concat app]. rewrite IHc. reflexivity.
Qed.

(** A run without blanks that is followed by a blank, or that ends the
    stream, is a field of its own. *)
Lemma fields_run (w : list byte) (b : byte) (rest : list byte) :
  w <> [] -> forallb (fun x => negb (is_space x)) w = true ->
  is_space b = true ->
  fields (w ++ b :: rest) = w :: fields rest.
Proof.
  intros Hw Hall Hb.
  induction w as [|x w IH]; [contradiction|].
  cbn [forallb] in Hall. apply andb_true_iff in Hall.
  destruct Hall as (Hx & Hall). apply negb_true_iff in Hx.
  cbn [app fields]. rewrite Hx.
  destruct w as [|y w].
  - cbn [app starts_word fields]. rewrite Hb. reflexivity.
  - cbn [app starts_word].
    cbn [forallb] in Hall. apply andb_true_iff in Hall.
    destruct Hall as (Hy & Hall'). rewrite Hy.
    cbn [app] in IH. rewrite IH; [reflexivity | discriminate |].
    cbn [forallb]. rewrite Hy, Hall'. reflexivity.
Qed.

Lemma fields_last_run (w : list byte) :
  w <> [] -> forallb (fun x => negb (is_space x)) w = true ->
  fields w = [w].
Proof.
  intros Hw Hall.
  induction w as [|x w IH]; [contradiction|].
  cbn [forallb] in Hall. apply andb_true_iff in Hall.
  destruct Hall as (Hx & Hall). apply negb_true_iff in Hx.
  cbn [fields]. rewrite Hx.
  destruct w as [|y w]; [reflexivity|].
  cbn [starts_word].
  pose proof Hall as Hall'. cbn [forallb] in Hall'.
  apply andb_true_iff in Hall'. destruct Hall' as (Hy & _). rewrite Hy.
  rewrite IH; [reflexivity | discriminate | exact Hall].
Qed.

Lemma words_boundary (s : list byte) :
  Z.of_nat (maximal_runs s) = words (effects Statesp s).
Proof. rewrite effects_words. cbn [at_boundary]. lia. Qed.

Lemma target_blank (st : state) (b : byte) :
  is_space b = true -> target (lookup st b) = Statesp.
Proof.
  intros Hb. pose proof (target_boundary st b) as H. rewrite Hb in H.
  destruct (target (lookup st b)); [reflexivity | discriminate..].
Qed.

Lemma maximal_runs_leading (l s : list byte) :
  blanks l -> maximal_runs (l ++ s) = maximal_runs s.
Proof.
  unfold maximal_runs.
  induction 1 as [|b l Hb _ IH]; cbn [app fields]; [reflexivity|].
  rewrite Hb. exact IH.
Qed.

Lemma blanks_words (t : list byte) (st : state) :
  blanks t -> words (effects st t) = 0.
Proof.
  intros Ht. rewrite effects_words.
  pose proof (maximal_runs_leading t [] Ht) as H. rewrite app_nil_r in H.
  rewrite H. destruct Ht as [|b t Hb _]; cbn [starts_word].
  - destruct (at_boundary st); reflexivity.
  - rewrite Hb. destruct (at_boundary st); reflexivity.
Qed.

Lemma maximal_runs_blank_insensitive : blank_insensitive maximal_runs.
Proof.
  split.
  - intros l s t Hl Ht. rewrite maximal_runs_leading by assumption.
    apply Nat2Z.inj. rewrite !words_boundary, effects_app.
    cbn [cadd words]. rewrite (blanks_words t _ Ht). lia.
  - intros a w l b Hw Hl. apply Nat2Z.inj.
    rewrite !words_boundary, !effects_app. cbn [effects cadd words].
    rewrite (target_blank _ w Hw), <- !words_boundary.
    rewrite maximal_runs_leading by assumption. reflexivity.
Qed.

(** C2. For every file, [count] returns, and the [words] counter it leaves is
    the number of maximal runs of bytes other than [0x09], [0x0a] and [0x20]
    in the stream, as a [uint64]: the number modulo [2^64], hence the number
    itself for a stream shorter than [2^64] bytes.  That number is the same
    with blanks added in front or behind and with any run of blanks made
    longer. *)
Theorem count_words (n : counter) (f : file) (k : console) :
  count n f k = (Ret (counters_of f), k)
  /\ words (counters_of f)
     = U64.wrap (Z.of_nat (maximal_runs (stream (freads f))))
  /\ (Z.of_nat (List.length (stream (freads f))) < U64.modulus ->
      words (counters_of f) = Z.of_nat (maximal_runs (stream (freads f))))
  /\ blank_insensitive maximal_runs.
Proof.
  assert (E : words (counters_of f)
              = U64.wrap (Z.of_nat (maximal_runs (stream (freads f))))).
  { rewrite counters_of_tally. unfold tally. cbn [cwrap cadd bulk words].
    rewrite <- words_boundary. reflexivity. }
  split; [apply count_returns|].
  split; [exact E|].
  split; [|apply maximal_runs_blank_insensitive].
  intros Hlen. rewrite E. apply wrap_small.
  pose proof (fields_length (stream (freads f))).
  unfold U64.in_range. lia.
Qed.

(** The sample text has three words. *)
Lemma count_words_witness :
  Z.of_nat (List.length (stream (freads sample_text))) < U64.modulus
  /\ words (counters_of sample_text) = 3.
Proof.
  split; [reflexivity|].
  destruct (count_words zero_counter sample_text empty_console)
    as (_ & _ & H & _).
  rewrite H; reflexivity.
Defined.

(** ** Chunking *)

Lemma stream_chunks (chunks : list (list byte)) :
  Forall (fun c => c <> []) chunks ->
  stream (map ok_read chunks) = List.concat chunks.
Proof.
  induction 1 as [|c chunks Hc _ IH]; cbn [map stream List.concat].
  - reflexivity.
  - cbn [ok_read rd_buf]. destruct c; [contradiction|].
    rewrite IH. reflexivity.
Qed.

Lemma stream_single (s : list byte) : stream [ok_read s] = s.
Proof.
  cbn [stream ok_read rd_buf]. destruct s; [reflexivity|].
  apply app_nil_r.
Qed.

Lemma process_chunk_spec (st : state) (n : counter) (chunk : list byte) :
  valid n ->
  process_chunk st n chunk
  = (run st chunk,
     cwrap (cadd n (cadd (bulk (Z.of_nat (List.length chunk)))
                         (effects st chunk)))).
Proof.
  intros Hn. unfold process_chunk.
  rewrite add_read_spec by assumption.
  rewrite scan_spec by apply valid_cwrap.
  rewrite cwrap_cadd_l, cadd_assoc. reflexivity.
Qed.

(** Threading the state and the counters through the chunks, from any state
    and any counters, gives what one pass over the whole stream gives. *)
Lemma feed_chunks (chunks : list (list byte)) : forall st n,
  valid n ->
  fold_left feed chunks (st, n) = process_chunk st n (List.concat chunks).
Proof.
  induction chunks as [|c chunks IH]; intros st n Hn;
    cbn [fold_left List.concat].
  - rewrite process_chunk_spec by assumption.
    cbn [run effects List.length Z.of_nat]. change (bulk 0) with zero_counter.
    rewrite !cadd_zero_r, cwrap_valid by assumption. reflexivity.
  - unfold feed at 2. cbn [fst snd].
    rewrite (process_chunk_spec st n c) by assumption.
    rewrite IH by apply valid_cwrap.
    rewrite !process_chunk_spec by first [assumption | apply valid_cwrap].
    rewrite run_app, effects_app, length_app, Nat2Z.inj_add, <- bulk_add.
    rewrite cwrap_cadd_l.
    apply f_equal2; [reflexivity|]. apply f_equal.
    apply counter_eq; cbn [cadd lines words chars errors bytes]; lia.
Qed.

(** C1. For every stream and every way of delivering it in non-empty
    chunks, [count] returns the same five counters, and ends in the same
    state, as when the stream is delivered in one chunk; and from any state
    and any counters, the stepping loop fed chunk after chunk, with the
    state carried over, leaves what it leaves when fed the whole stream. *)
Theorem count_chunking (name : string) (chunks : list (list byte))
    (n : counter) (k : console) :
  Forall (fun c => c <> []) chunks ->
  count n (file_of_chunks name chunks) k
  = (Ret (counters_of (file_of_chunks name [List.concat chunks])), k)
  /\ count n (file_of_chunks name [List.concat chunks]) k
     = (Ret (counters_of (file_of_chunks name [List.concat chunks])), k)
  /\ final_state (file_of_chunks name chunks)
     = final_state (file_of_chunks name [List.concat chunks])
  /\ (forall st m, valid m ->
       fold_left feed chunks (st, m)
       = process_chunk st m (List.concat chunks)).
Proof.
  intros Hc.
  assert (E : stream (freads (file_of_chunks name chunks))
              = stream (freads (file_of_chunks name [List.concat chunks]))).
  { unfold file_of_chunks. cbn [freads map].
    rewrite stream_single. apply stream_chunks, Hc. }
  split; [|split; [|split]].
  - rewrite count_returns, !counters_of_tally, E. reflexivity.
  - apply count_returns.
  - rewrite !final_state_run, E. reflexivity.
  - intros st m Hm. apply feed_chunks, Hm.
Qed.

(** The sample text read in three chunks and read in one. *)
Lemma count_chunking_witness :
  count zero_counter sample_text empty_console
  = (Ret (mkCounter 2 3 10 0 10), empty_console)
  /\ count zero_counter
       (file_of_chunks "a" [[x67; x6f; x20; x74; x6f; x0a; x0a; x20; x69; x74]])
       empty_console
     = (Ret (mkCounter 2 3 10 0 10), empty_console).
Proof.
  assert (H : Forall (fun c : list byte => c <> [])
                [[x67; x6f; x20]; [x74; x6f; x0a]; [x0a; x20; x69; x74]])
    by (repeat constructor; discriminate).
  destruct (count_chunking "a" _ zero_counter empty_console H)
    as (H1 & H2 & _).
  split; [exact H1 | exact H2].
Defined.

(** ** Multi-byte sequences *)

Lemma tally_app (s q : list byte) :
  tally (s ++ q)
  = cadd (tally s)
         (cadd (bulk (Z.of_nat (List.length q))) (effects (run Statesp s) q)).
Proof.
  unfold tally. rewrite length_app, Nat2Z.inj_add, <- bulk_add, effects_app.
  apply counter_eq; simpl; lia.
Qed.

Lemma counters_of_app (f g : file) (q : list byte) :
  stream (freads g) = stream (freads f) ++ q ->
  counters_of g
  = cwrap (cadd (counters_of f)
                (cadd (bulk (Z.of_nat (List.length q)))
                      (effects (final_state f) q))).
Proof.
  intros E. rewrite !counters_of_tally, final_state_run, E, tally_app.
  rewrite cwrap_cadd_l. reflexivity.
Qed.

Lemma effects_two_byte (st : state) (l c : byte) :
  is_lead2 l = true -> is_cont c = true ->
  effects st [l; c] = mkCounter 0 (if at_boundary st then 1 else 0) (-1)
                                (pending st) 0
  /\ run st [l; c] = Statewd.
Proof.
  intros Hl Hc. cbn [effects run].
  rewrite !lookup_rule, (classify_lead2 l Hl), (classify_cont c Hc).
  destruct st; split; reflexivity.
Qed.

Lemma effects_three_byte (st : state) (l c d : byte) :
  is_lead3 l = true -> is_cont c = true -> is_cont d = true ->
  effects st [l; c; d] = mkCounter 0 (if at_boundary st then 1 else 0) (-2)
                                   (pending st) 0
  /\ run st [l; c; d] = Statewd.
Proof.
  intros Hl Hc Hd. cbn [effects run].
  rewrite !lookup_rule, (classify_lead3 l Hl), (classify_cont c Hc),
    (classify_cont d Hd).
  destruct st; split; reflexivity.
Qed.

Lemma effects_incomplete (st : state) (q : list byte) :
  incomplete q = true ->
  chars (effects st q) = 1 - Z.of_nat (List.length q)
  /\ errors (effects st q) = pending st
  /\ pending (run st q) = 1.
Proof.
  destruct q as [|l [|c [|d q]]]; cbn [incomplete]; try discriminate.
  - intros H. apply orb_true_iff in H. cbn [effects run].
    rewrite !lookup_rule.
    destruct H as [H | H];
      [rewrite (classify_lead2 l H) | rewrite (classify_lead3 l H)];
      destruct st; repeat split; reflexivity.
  - intros H. apply andb_true_iff in H. destruct H as (Hl & Hc).
    cbn [effects run].
    rewrite !lookup_rule, (classify_lead3 l Hl), (classify_cont c Hc).
    destruct st; repeat split; reflexivity.
Qed.

(** C4. In any stream, a two-byte sequence (lead [0xc0]-[0xdf], one
    continuation [0x80]-[0xbf]) adds 2 to [bytes] and 1 to [chars]; a
    three-byte sequence (lead [0xe0]-[0xef], two continuations) adds 3 to
    [bytes] and 1 to [chars]; a lead byte that ends the stream adds 1 to
    [bytes] and 1 to [chars] and no bad sequence of its own: [errors] grows
    only by the one error of an earlier sequence that was still pending
    when the lead byte arrived.  All sums are those of [uint64]. *)
Theorem count_sequences (f g : file) (n : counter) (k : console) :
  count n f k = (Ret (counters_of f), k)
  /\ count n g k = (Ret (counters_of g), k)
  /\ (forall l c, is_lead2 l = true -> is_cont c = true ->
       stream (freads g) = stream (freads f) ++ [l; c] ->
       bytes (counters_of g) = U64.wrap (bytes (counters_of f) + 2)
       /\ chars (counters_of g) = U64.wrap (chars (counters_of f) + 1))
  /\ (forall l c d, is_lead3 l = true -> is_cont c = true -> is_cont d = true ->
       stream (freads g) = stream (freads f) ++ [l; c; d] ->
       bytes (counters_of g) = U64.wrap (bytes (counters_of f) + 3)
       /\ chars (counters_of g) = U64.wrap (chars (counters_of f) + 1))
  /\ (forall l, (is_lead2 l || is_lead3 l)%bool = true ->
       stream (freads g) = stream (freads f) ++ [l] ->
       bytes (counters_of g) = U64.wrap (bytes (counters_of f) + 1)
       /\ chars (counters_of g) = U64.wrap (chars (counters_of f) + 1)
       /\ errors (counters_of g)
          = U64.wrap (errors (counters_of f) + pending (final_state f))
       /\ (text_state (final_state f) ->
           errors (counters_of g) = errors (counters_of f))).
Proof.
  split; [apply count_returns|]. split; [apply count_returns|].
  split; [|split].
  - intros l c Hl Hc E. rewrite (counters_of_app f g _ E).
    destruct (effects_two_byte (final_state f) l c Hl Hc) as (-> & _).
    split; reflexivity.
  - intros l c d Hl Hc Hd E. rewrite (counters_of_app f g _ E).
    destruct (effects_three_byte (final_state f) l c d Hl Hc Hd) as (-> & _).
    split; reflexivity.
  - intros l Hl E. rewrite (counters_of_app f g _ E).
    destruct (effects_incomplete (final_state f) [l] Hl) as (Hc & He & _).
    cbn [cwrap cadd bulk bytes chars errors List.length].
    rewrite Hc, He, (effects_bytes _ (final_state f)).
    split; [f_equal; cbn; lia|]. split; [f_equal; cbn; lia|].
    split; [f_equal; lia|].
    intros [-> | ->]; cbn [pending]; rewrite Z.add_0_r;
      apply wrap_small; rewrite counters_of_tally; apply wrap_in_range.
Qed.

(** The three kinds of sequence after the prefix [a], space; the first two
    are split over two reads. *)
Lemma count_sequences_witness :
  (bytes (counters_of sample_two_byte) = 4
   /\ chars (counters_of sample_two_byte) = 3)
  /\ (bytes (counters_of sample_three_byte) = 5
      /\ chars (counters_of sample_three_byte) = 3)
  /\ (bytes (counters_of sample_lone_lead) = 3
      /\ chars (counters_of sample_lone_lead) = 3
      /\ errors (counters_of sample_lone_lead) = 0).
Proof.
  split; [|split].
  - destruct (count_sequences sample_prefix sample_two_byte zero_counter
                empty_console) as (_ & _ & H & _).
    destruct (H xc3 xa9 eq_refl eq_refl eq_refl) as (Hb & Hc).
    rewrite Hb, Hc. split; reflexivity.
  - destruct (count_sequences sample_prefix sample_three_byte zero_counter
                empty_console) as (_ & _ & _ & H & _).
    destruct (H xe2 x82 xac eq_refl eq_refl eq_refl eq_refl) as (Hb & Hc).
    rewrite Hb, Hc. split; reflexivity.
  - destruct (count_sequences sample_prefix sample_lone_lead zero_counter
                empty_console) as (_ & _ & _ & _ & H).
    destruct (H xc3 eq_refl eq_refl) as (Hb & Hc & _ & He).
    rewrite Hb, Hc, (He (or_introl eq_refl)). repeat split; reflexivity.
Defined.

(** ** Broken sequences *)

(** C5, as stated, fails: after a lead byte, the byte [0xf0] is counted as
    one bad sequence, while one count for the broken sequence followed by the
    table's treatment of [0xf0] as an invalid lead, from the word state or
    from the boundary state, would make two. *)
Lemma resync_counterexample :
  is_cont xf0 = false
  /\ step (Statec2, zero_counter) xf0 = (Statewd, mkCounter 0 0 0 1 0)
  /\ spec_resync Statewd zero_counter xf0 = (Statewd, mkCounter 0 0 0 2 0)
  /\ spec_resync Statesp zero_counter xf0 = (Statewd, mkCounter 0 1 0 2 0)
  /\ step (Statec2, zero_counter) xf0 <> spec_resync Statewd zero_counter xf0
  /\ step (Statec2, zero_counter) xf0 <> spec_resync Statesp zero_counter xf0
  /\ errors (counters_of (file_of_stream [xc3; xf0])) = 1.
Proof. repeat split; discriminate. Qed.

(** C5, amended. For every byte that is not a continuation, processed while
    a continuation is expected, the step counts exactly one bad sequence
    and moves to the state, with the line, word and character effects, that
    the table gives the byte in the word state.  For a byte outside
    [0xf0]-[0xff] that is the count for the broken sequence followed by the
    table's treatment of the byte in the word state; for a byte in
    [0xf0]-[0xff] the single count stands for both the broken sequence and
    the invalid lead, and the step is the one of the word state. *)
Theorem step_resync (st : state) (n : counter) (b : byte) :
  pending st = 1 -> is_cont b = false ->
  errors (snd (step (st, n) b)) = U64.incr (errors n)
  /\ fst (step (st, n) b) = fst (step (Statewd, n) b)
  /\ lines (snd (step (st, n) b)) = lines (snd (step (Statewd, n) b))
  /\ words (snd (step (st, n) b)) = words (snd (step (Statewd, n) b))
  /\ chars (snd (step (st, n) b)) = chars (snd (step (Statewd, n) b))
  /\ bytes (snd (step (st, n) b)) = bytes (snd (step (Statewd, n) b))
  /\ (is_bad_lead b = false -> step (st, n) b = spec_resync Statewd n b)
  /\ (is_bad_lead b = true -> step (st, n) b = step (Statewd, n) b).
Proof.
  intros Hst Hb.
  destruct st; try discriminate Hst;
    destruct b; try discriminate Hb;
    (repeat split; try reflexivity; intros H; try discriminate H; reflexivity).
Qed.

(** A newline after a three-byte lead, and [0xf0] after a two-byte lead. *)
Lemma step_resync_witness :
  step (Statec3, zero_counter) x0a = (Statesp, mkCounter 1 0 0 1 0)
  /\ step (Statec2, zero_counter) xf0 = (Statewd, mkCounter 0 0 0 1 0).
Proof.
  destruct (step_resync Statec3 zero_counter x0a eq_refl eq_refl)
    as (_ & _ & _ & _ & _ & _ & H1 & _).
  destruct (step_resync Statec2 zero_counter xf0 eq_refl eq_refl)
    as (_ & _ & _ & _ & _ & _ & _ & H2).
  rewrite (H1 eq_refl), (H2 eq_refl). split; reflexivity.
Defined.

(** ** End of input inside a sequence *)

Lemma target_c3 (st : state) (b : byte) :
  target (lookup st b) = Statec3 -> is_lead3 b = true.
Proof.
  rewrite lookup_rule. pose proof (classify_spec b) as Hb.
  destruct st, (classify b); intros H; try discriminate H; exact Hb.
Qed.

Lemma target_c2 (st : state) (b : byte) :
  target (lookup st b) = Statec2 ->
  is_lead2 b = true \/ (st = Statec3 /\ is_cont b = true).
Proof.
  rewrite lookup_rule. pose proof (classify_spec b) as Hb.
  destruct st, (classify b); intros H; try discriminate H;
    first [left; exact Hb | right; split; [reflexivity | exact Hb]].
Qed.

Lemma run_snoc (st : state) (s : list byte) (b : byte) :
  run st (s ++ [b]) = target (lookup (run st s) b).
Proof. rewrite run_app. reflexivity. Qed.

(** A stream that leaves the machine expecting a continuation ends with an
    incomplete sequence. *)
Lemma pending_decompose (s : list byte) :
  pending (run Statesp s) = 1 ->
  exists pre q, s = pre ++ q /\ incomplete q = true.
Proof.
  destruct s as [|b s _] using rev_ind; [discriminate|].
  rewrite run_snoc. intros H.
  destruct (target (lookup (run Statesp s) b)) eqn:Ht; try discriminate H.
  - destruct (target_c2 _ _ Ht) as [Hl | (Hst & Hc)].
    + exists s, [b]. split; [reflexivity|]. cbn [incomplete].
      rewrite Hl. reflexivity.
    + destruct s as [|b' s _] using rev_ind; [discriminate Hst|].
      rewrite run_snoc in Hst. apply target_c3 in Hst.
      exists s, [b'; b]. split; [rewrite <- app_assoc; reflexivity|].
      cbn [incomplete]. rewrite Hst, Hc. reflexivity.
  - apply target_c3 in Ht. exists s, [b]. split; [reflexivity|].
    cbn [incomplete]. rewrite Ht. apply orb_true_r.
Qed.

Lemma stream_file_of_stream (s : list byte) :
  stream (freads (file_of_stream s)) = s.
Proof. apply stream_single. Qed.

(** What [count] leaves is what the stepping loop leaves after the last
    byte: nothing is done at the end of the input. *)
Lemma count_no_finalization (f : file) :
  (final_state f, counters_of f)
  = process_chunk Statesp zero_counter (stream (freads f)).
Proof.
  unfold process_chunk.
  rewrite add_read_spec by apply valid_zero.
  rewrite scan_spec by apply valid_cwrap.
  rewrite cwrap_cadd_l, cadd_zero_l, final_state_run, counters_of_tally.
  reflexivity.
Qed.

(** C7, as stated, fails: the stream that consists of the lead byte [0xc3]
    ends with a sequence pending, and that byte is counted as one character,
    whereas the empty stream has none. *)
Lemma incomplete_counterexample :
  pending (final_state (file_of_stream [xc3])) = 1
  /\ incomplete [xc3] = true
  /\ chars (counters_of (file_of_stream [xc3])) = 1
  /\ chars (counters_of (file_of_stream ([] ++ [xc3])))
     <> chars (counters_of (file_of_stream [])).
Proof. repeat split; discriminate. Qed.

(** C7, amended. When a file ends while a continuation is expected, [count]
    returns the counters as the stepping loop left them, without any final
    transition.  The stream then ends with an incomplete sequence; that
    sequence adds no bad sequence ([errors] has grown only by the one error
    of an earlier sequence still pending when it began), and it is counted
    as exactly one character. *)
Theorem count_incomplete (f : file) (n : counter) (k : console) :
  pending (final_state f) = 1 ->
  count n f k = (Ret (counters_of f), k)
  /\ (final_state f, counters_of f)
     = process_chunk Statesp zero_counter (stream (freads f))
  /\ exists pre q,
       stream (freads f) = pre ++ q /\ incomplete q = true
       /\ errors (counters_of f)
          = U64.wrap (errors (counters_of (file_of_stream pre))
                      + pending (final_state (file_of_stream pre)))
       /\ chars (counters_of f)
          = U64.wrap (chars (counters_of (file_of_stream pre)) + 1).
Proof.
  intros Hp. split; [apply count_returns|].
  split; [apply count_no_finalization|].
  rewrite final_state_run in Hp.
  destruct (pending_decompose _ Hp) as (pre & q & E & Hq).
  exists pre, q. split; [exact E|]. split; [exact Hq|].
  assert (E' : stream (freads f) = stream (freads (file_of_stream pre)) ++ q)
    by (rewrite stream_file_of_stream; exact E).
  rewrite (counters_of_app _ f q E').
  destruct (effects_incomplete (final_state (file_of_stream pre)) q Hq)
    as (Hc & He & _).
  cbn [cwrap cadd bulk chars errors]. rewrite Hc, He.
  split; f_equal; lia.
Qed.

(** A file that ends after the first continuation of a three-byte sequence. *)
Lemma count_incomplete_witness :
  pending (final_state sample_partial) = 1
  /\ count zero_counter sample_partial empty_console
     = (Ret (mkCounter 0 1 2 0 3), empty_console).
Proof.
  assert (H : pending (final_state sample_partial) = 1) by reflexivity.
  split; [exact H|].
  exact (proj1 (count_incomplete sample_partial zero_counter empty_console H)).
Defined.

(** ** The front end *)

Lemma string_app_assoc (a b c : string) :
  ((a ++ b) ++ c = a ++ (b ++ c))%string.
Proof.
  induction a as [|x a IH]; cbn [append]; [reflexivity|].
  rewrite IH. reflexivity.
Qed.

Lemma string_app_nil_r (a : string) : (a ++ "")%string = a.
Proof.
  induction a as [|x a IH]; cbn [append]; [reflexivity|].
  rewrite IH. reflexivity.
Qed.

Lemma count_reset (n : counter) (f : file) (k : console) :
  count n f k = count zero_counter f k.
Proof. rewrite !count_returns. reflexivity. Qed.

Lemma accumulate_spec (t n : counter) : accumulate t n = cwrap (cadd t n).
Proof. reflexivity. Qed.

(** The running total is the elementwise sum, as [uint64]s. *)
Lemma fold_accumulate (cs : list counter) : forall t,
  valid t -> fold_left accumulate cs t = cwrap (cadd t (csum cs)).
Proof.
  induction cs as [|c cs IH]; intros t Ht; cbn [fold_left csum fold_right].
  - rewrite cadd_zero_r, cwrap_valid by assumption. reflexivity.
  - rewrite IH by (rewrite accumulate_spec; apply valid_cwrap).
    rewrite accumulate_spec, cwrap_cadd_l, cadd_assoc. reflexivity.
Qed.

Lemma arg_file_opens (a : argument) (reads : list read) :
  arg_open a = Opens reads -> mkFile (arg_name a) reads = arg_file a.
Proof. intros H. unfold arg_file. rewrite H. reflexivity. Qed.

Lemma arg_loop_spec (fl : flags) (args : list argument) :
  Forall opens args ->
  forall (n t : counter) (k : console),
  exists n',
    arg_loop fl args n t k
    = (Ret (n', fold_left accumulate (per_source args) t),
       mkConsole (stdout k ++ report_lines fl args) (stderr k)).
Proof.
  induction 1 as [|a args (reads & Ha) _ IH]; intros n t k;
    cbn [arg_loop per_source map fold_left report_lines].
  - exists n. unfold ret. rewrite string_app_nil_r. destruct k; reflexivity.
  - rewrite Ha. unfold bind at 1. rewrite count_returns.
    unfold bind at 1. unfold report at 1, write_stdout at 1.
    rewrite (arg_file_opens a reads Ha).
    destruct (IH (counters_of (arg_file a))
                 (accumulate t (counters_of (arg_file a)))
                 (mkConsole (stdout k ++ report_line fl (counters_of (arg_file a))
                                                     (arg_name a))
                            (stderr k))) as (n' & E).
    exists n'. rewrite E. cbn [stdout stderr].
    rewrite string_app_assoc. reflexivity.
Qed.

Lemma NArg_nil (args : list argument) :
  (NArg args =? 0) = true -> args = [].
Proof.
  destruct args; [reflexivity|]. unfold NArg. cbn [List.length].
  intros H. apply Z.eqb_eq in H. lia.
Qed.

(** C8. For every command line whose files can all be opened, the program
    ends with status 0 after printing one line per source (the line for
    standard input when there is no file argument), followed by the total
    line exactly when there is more than one source.  The counters on the
    total line are the elementwise sums of the counters of the sources, as
    [uint64]s, and the counters of a source do not depend on what the
    counter held before: [count] starts each source from zero. *)
Theorem main_totals (o : options) (stdin_reads : list read)
    (args : list argument) :
  Forall opens args ->
  run_main o stdin_reads args
  = (0, mkConsole
          (stdin_line (effective_flags o) stdin_reads args
           ++ report_lines (effective_flags o) args
           ++ total_line (effective_flags o) args)%string
          "")
  /\ (forall n f k, count n f k = count zero_counter f k)
  /\ (valid (csum (per_source args)) ->
      cwrap (csum (per_source args)) = csum (per_source args)).
Proof.
  intros Hopen. split; [|split; [intros; apply count_reset | apply cwrap_valid]].
  unfold run_main, main, stdin_line, total_line.
  change (mkCounter 0 0 0 0 0) with zero_counter.
  destruct (NArg args =? 0) eqn:H0.
  - apply NArg_nil in H0. subst args.
    unfold bind, report, write_stdout, ret. rewrite count_returns.
    cbn. rewrite string_app_nil_r. reflexivity.
  - unfold bind at 1. unfold ret at 1. unfold bind at 1.
    destruct (arg_loop_spec (effective_flags o) args Hopen zero_counter
                zero_counter empty_console) as (n' & E).
    rewrite E. cbn [snd stdout stderr empty_console append].
    rewrite fold_accumulate by apply valid_zero. rewrite cadd_zero_l.
    destruct (NArg args >? 1).
    + unfold report, write_stdout. cbn [stdout stderr]. reflexivity.
    + unfold ret. rewrite string_app_nil_r. reflexivity.
Qed.

(** Two files on the command line, without options. *)
Lemma main_totals_witness :
  Forall opens sample_args
  /\ run_main no_options [] sample_args
     = (0, mkConsole ("      1      1      3 a" ++ newline
                      ++ "      0      2      5 b" ++ newline
                      ++ "      1      3      8 total" ++ newline)%string
                     "").
Proof.
  assert (H : Forall opens sample_args)
    by (repeat constructor; eexists; reflexivity).
  split; [exact H|].
  exact (proj1 (main_totals no_options [] sample_args H)).
Defined.

(** C9. A read that fails is taken for the end of the file.  A file whose
    second read fails with an input/output error is reported with the counts
    of its first chunk, and a directory with zero counts; in both runs
    nothing is written to the error stream and the exit status is 0.
    Whatever the reads return, [count] never takes its error exit: the test
    [nr == 0] comes first and [Read] returns no negative count. *)
Theorem read_error_ignored :
  run_main no_options [] [mkArg "f" (Opens sample_read_error)]
  = (0, mkConsole ("      1      1      3 f" ++ newline)%string "")
  /\ run_main no_options [] [mkArg "d" (Opens sample_directory)]
     = (0, mkConsole ("      0      0      0 d" ++ newline)%string "")
  /\ (forall n f k, exists c, count n f k = (Ret c, k)).
Proof.
  split; [reflexivity|]. split; [reflexivity|].
  intros n f k. exists (counters_of f). apply count_returns.
Qed.

(** C10. Without any option on the command line the flags are those of
    [-l -w -c]: the program prints what it prints with these three options,
    and each report line holds the lines, words and characters fields and
    the name.  The counters of bad sequences and of bytes are computed all
    the same: [count] does not depend on the flags, and [bytes] is the length
    of the stream as a [uint64]. *)
Theorem default_fields :
  effective_flags no_options = mkFlags true true true false false
  /\ (forall stdin_reads args,
       main no_options stdin_reads args
       = main (mkOptions (Some true) (Some true) (Some true) None None)
              stdin_reads args)
  /\ (forall c name,
       report_line (effective_flags no_options) c name
       = (Sprintf_7d (lines c) ++ Sprintf_7d (words c) ++ Sprintf_7d (chars c)
          ++ " " ++ name ++ newline)%string)
  /\ (forall n f k,
       count n f k = (Ret (counters_of f), k)
       /\ bytes (counters_of f)
          = U64.wrap (Z.of_nat (List.length (stream (freads f))))
       /\ errors (counters_of f)
          = U64.wrap (errors (effects Statesp (stream (freads f)))))
  /\ counters_of (file_of_stream [x80]) = mkCounter 0 1 1 1 1
  /\ run_main no_options [ok_read [x80]] []
     = (0, mkConsole ("      0      1      1 " ++ newline)%string "").
Proof.
  split; [reflexivity|]. split; [reflexivity|].
  split.
  { intros c name. unfold report_line. cbn [effective_flags lflag wflag cflag
      eflag bflag NFlag no_options opt_l opt_w opt_c opt_e opt_b is_set
      parsed_flags flag_value Z.add Z.eqb append].
    rewrite !string_app_assoc. reflexivity. }
  split.
  { intros n f k. split; [apply count_returns|].
    rewrite counters_of_tally. unfold tally.
    cbn [cwrap cadd bulk bytes errors].
    rewrite (effects_bytes _ Statesp), Z.add_0_r. split; reflexivity. }
  split; reflexivity.
Qed.

(** * Further properties of [count] *)

(** ** Bounds on the counters *)

Lemma delta_bounds (a : action) :
  0 <= lines (delta a) /\ 0 <= words (delta a) /\ 0 <= errors (delta a)
  /\ chars (delta a) <= 0
  /\ lines (delta a) + words (delta a) - chars (delta a) <= 1
  /\ errors (delta a) - chars (delta a) <= 1.
Proof. destruct a; cbn; lia. Qed.

Lemma effects_bounds (s : list byte) : forall st,
  0 <= lines (effects st s) /\ 0 <= words (effects st s)
  /\ 0 <= errors (effects st s) /\ chars (effects st s) <= 0
  /\ lines (effects st s) + words (effects st s) - chars (effects st s)
     <= Z.of_nat (List.length s)
  /\ errors (effects st s) - chars (effects st s) <= Z.of_nat (List.length s).
Proof.
  induction s as [|b s IH]; intros st.
  - cbn. lia.
  - cbn [effects cadd lines words chars errors List.length].
    pose proof (delta_bounds (lookup st b)).
    pose proof (IH (target (lookup st b))). lia.
Qed.

(** A step retracts a character only in a state that is owed a
    continuation, and leaves one continuation less owed. *)
Lemma step_owed (st : state) (b : byte) :
  3 * (1 + chars (delta (lookup st b))) + owed st
  >= 1 + owed (target (lookup st b)).
Proof.
  rewrite lookup_rule. destruct st, (classify b); cbn; lia.
Qed.

Lemma effects_owed (s : list byte) : forall st,
  3 * (Z.of_nat (List.length s) + chars (effects st s)) + owed st
  >= Z.of_nat (List.length s).
Proof.
  induction s as [|b s IH]; intros st.
  - destruct st; cbn; lia.
  - cbn [effects cadd chars List.length].
    pose proof (step_owed st b). pose proof (IH (target (lookup st b))). lia.
Qed.

Lemma delta_not_cont (st : state) (b : byte) :
  is_cont b = false -> chars (delta (lookup st b)) = 0.
Proof. destruct st, b; intros H; try discriminate H; reflexivity. Qed.

Lemma effects_not_cont (s : list byte) : forall st,
  Z.of_nat (count_bytes (fun b => negb (is_cont b)) s)
  <= Z.of_nat (List.length s) + chars (effects st s).
Proof.
  unfold count_bytes.
  induction s as [|b s IH]; intros st.
  - cbn. lia.
  - cbn [effects cadd chars List.length filter].
    pose proof (IH (target (lookup st b))).
    pose proof (delta_bounds (lookup st b)).
    destruct (is_cont b) eqn:Hb; cbn [negb List.length].
    + lia.
    + rewrite (delta_not_cont st b Hb). lia.
Qed.

(** For a stream shorter than [2^64] bytes no counter wraps around. *)
Lemma tally_fields (s : list byte) :
  0 <= lines (tally s) <= Z.of_nat (List.length s)
  /\ 0 <= words (tally s) <= Z.of_nat (List.length s)
  /\ 0 <= chars (tally s) <= Z.of_nat (List.length s)
  /\ 0 <= errors (tally s) <= Z.of_nat (List.length s)
  /\ bytes (tally s) = Z.of_nat (List.length s).
Proof.
  unfold tally. cbn [cadd bulk lines words chars errors bytes].
  pose proof (effects_bounds s Statesp).
  pose proof (effects_owed s Statesp).
  rewrite (effects_bytes s Statesp). cbn [owed] in *. lia.
Qed.

Lemma counters_exact (f : file) :
  short f -> counters_of f = tally (stream (freads f)).
Proof.
  unfold short. intros Hs. rewrite counters_of_tally.
  apply cwrap_valid. pose proof (tally_fields (stream (freads f))).
  unfold valid, U64.in_range. lia.
Qed.

(** X1. For a file shorter than [2^64] bytes, [bytes] is the length of the
    stream, every byte that is not a continuation byte counts as a
    character, and a character accounts for one to three bytes:
    [chars <= bytes <= 3 * chars]. *)
Theorem count_chars_bounds (f : file) :
  short f ->
  bytes (counters_of f) = Z.of_nat (List.length (stream (freads f)))
  /\ Z.of_nat (count_bytes (fun b => negb (is_cont b)) (stream (freads f)))
     <= chars (counters_of f)
  /\ chars (counters_of f) <= bytes (counters_of f)
  /\ bytes (counters_of f) <= 3 * chars (counters_of f).
Proof.
  intros Hs. rewrite (counters_exact f Hs).
  pose proof (tally_fields (stream (freads f))) as Hf.
  pose proof (effects_owed (stream (freads f)) Statesp) as Ho.
  pose proof (effects_not_cont (stream (freads f)) Statesp) as Hc.
  unfold tally in *. cbn [cadd bulk chars bytes owed] in *.
  rewrite (effects_bytes _ Statesp) in *. lia.
Qed.

(** The mixed sample has ten bytes, of which four are continuation bytes,
    and seven characters. *)
Lemma count_chars_bounds_witness :
  short sample_mixed
  /\ bytes (counters_of sample_mixed) = 10
  /\ 6 <= chars (counters_of sample_mixed) <= 10.
Proof.
  assert (H : short sample_mixed) by reflexivity.
  split; [exact H|].
  destruct (count_chars_bounds sample_mixed H) as (Hb & Hn & Hc & _).
  rewrite Hb in Hc. split; [exact Hb|]. split; [exact Hn | exact Hc].
Defined.

(** X2. For a file shorter than [2^64] bytes, a byte counts at most one of a
    line, a word and a retracted character, and an error is never counted
    on a retracting byte: [lines + words <= chars] and [errors <= chars]. *)
Theorem count_counters_order (f : file) :
  short f ->
  0 <= lines (counters_of f) /\ 0 <= words (counters_of f)
  /\ 0 <= errors (counters_of f)
  /\ lines (counters_of f) + words (counters_of f) <= chars (counters_of f)
  /\ errors (counters_of f) <= chars (counters_of f).
Proof.
  intros Hs. rewrite (counters_exact f Hs).
  pose proof (effects_bounds (stream (freads f)) Statesp) as Hb.
  unfold tally. cbn [cadd bulk lines words chars errors]. lia.
Qed.

Lemma count_counters_order_witness :
  short sample_mixed
  /\ lines (counters_of sample_mixed) + words (counters_of sample_mixed)
     <= chars (counters_of sample_mixed)
  /\ errors (counters_of sample_mixed) <= chars (counters_of sample_mixed).
Proof.
  assert (H : short sample_mixed) by reflexivity.
  split; [exact H|].
  destruct (count_counters_order sample_mixed H) as (_ & _ & _ & H1 & H2).
  split; [exact H1 | exact H2].
Defined.

(** ** Errors and the encoding *)

(** An error is charged either to the byte itself, when it is not ASCII,
    or to the lead byte of the sequence it breaks. *)
Lemma step_charge (st : state) (b : byte) :
  errors (delta (lookup st b)) + pending (target (lookup st b))
  <= (if is_ascii b then 0 else 1) + pending st.
Proof. destruct st, b; vm_compute; discriminate. Qed.

Lemma effects_charge (s : list byte) : forall st,
  errors (effects st s) + pending (run st s)
  <= Z.of_nat (count_bytes (fun b => negb (is_ascii b)) s) + pending st.
Proof.
  unfold count_bytes.
  induction s as [|b s IH]; intros st.
  - cbn. lia.
  - cbn [effects run cadd errors filter].
    pose proof (IH (target (lookup st b))). pose proof (step_charge st b).
    destruct (is_ascii b); cbn [negb List.length]; lia.
Qed.

Lemma pending_range (st : state) : 0 <= pending st <= 1.
Proof. destruct st; cbn; lia. Qed.

(** X3. For a file shorter than [2^64] bytes, the number of bad sequences is
    at most the number of bytes [0x80]-[0xff] in the stream. *)
Theorem count_errors_non_ascii (f : file) :
  short f ->
  errors (counters_of f)
  <= Z.of_nat (count_bytes (fun b => negb (is_ascii b)) (stream (freads f))).
Proof.
  intros Hs. rewrite (counters_exact f Hs). unfold tally.
  cbn [cadd bulk errors].
  pose proof (effects_charge (stream (freads f)) Statesp) as H.
  pose proof (pending_range (run Statesp (stream (freads f)))).
  cbn [pending] in H. lia.
Qed.

(** The mixed sample has seven bytes that are not ASCII and two errors. *)
Lemma count_errors_non_ascii_witness :
  short sample_mixed /\ errors (counters_of sample_mixed) <= 7.
Proof.
  assert (H : short sample_mixed) by reflexivity.
  split; [exact H|]. exact (count_errors_non_ascii sample_mixed H).
Defined.

Lemma ascii_text (st : state) (b : byte) :
  is_ascii b = true -> text_state st ->
  errors (delta (lookup st b)) = 0 /\ chars (delta (lookup st b)) = 0
  /\ text_state (target (lookup st b)).
Proof.
  intros Hb [-> | ->]; destruct b; try discriminate Hb;
    (split; [reflexivity | split; [reflexivity|]]);
    first [left; reflexivity | right; reflexivity].
Qed.

Lemma pending_text (st : state) : text_state st -> pending st = 0.
Proof. intros [-> | ->]; reflexivity. Qed.

Lemma effects_unit (u : list byte) (st : state) :
  unit_ok u = true -> text_state st ->
  errors (effects st u) = 0 /\ chars (effects st u) = 1 - Z.of_nat (List.length u)
  /\ text_state (run st u).
Proof.
  intros Hu Hst.
  destruct u as [|a [|c [|d [|e u]]]]; cbn [unit_ok] in Hu; try discriminate Hu.
  - destruct (ascii_text st a Hu Hst) as (He & Hc & Ht).
    cbn [effects run cadd errors chars zero_counter List.length].
    rewrite He, Hc. split; [reflexivity | split; [reflexivity | exact Ht]].
  - apply andb_true_iff in Hu. destruct Hu as (Ha & Hc).
    destruct (effects_two_byte st a c Ha Hc) as (-> & ->).
    cbn [errors chars]. rewrite (pending_text st Hst).
    split; [reflexivity | split; [reflexivity | right; reflexivity]].
  - apply andb_true_iff in Hu. destruct Hu as (Hu & Hd).
    apply andb_true_iff in Hu. destruct Hu as (Ha & Hc).
    destruct (effects_three_byte st a c d Ha Hc Hd) as (-> & ->).
    cbn [errors chars]. rewrite (pending_text st Hst).
    split; [reflexivity | split; [reflexivity | right; reflexivity]].
Qed.

Lemma effects_units (units : list (list byte)) : forall st,
  Forall (fun u => unit_ok u = true) units -> text_state st ->
  errors (effects st (List.concat units)) = 0
  /\ Z.of_nat (List.length (List.concat units))
     + chars (effects st (List.concat units))
     = Z.of_nat (List.length units)
  /\ text_state (run st (List.concat units)).
Proof.
  induction units as [|u units IH]; intros st Hu Hst.
  - split; [reflexivity | split; [reflexivity | assumption]].
  - inversion Hu as [|? ? Hu1 Hu2]; subst.
    destruct (effects_unit u st Hu1 Hst) as (He & Hc & Ht).
    destruct (IH _ Hu2 Ht) as (He' & Hc' & Ht').
    cbn [List.concat List.length].
    rewrite effects_app, run_app, length_app.
    cbn [cadd errors chars]. split; [lia | split; [lia | exact Ht']].
Qed.

(** X4. For a file whose stream is a sequence of well-formed units (an
    ASCII byte, a two-byte lead with its continuation, a three-byte lead
    with its two continuations), [count] finds no bad sequence, counts one
    character per unit, as a [uint64], and ends outside a sequence. *)
Theorem count_well_formed (f : file) (units : list (list byte)) :
  Forall (fun u => unit_ok u = true) units ->
  stream (freads f) = List.concat units ->
  errors (counters_of f) = 0
  /\ chars (counters_of f) = U64.wrap (Z.of_nat (List.length units))
  /\ text_state (final_state f).
Proof.
  intros Hu E.
  destruct (effects_units units Statesp Hu (or_introl eq_refl))
    as (He & Hc & Ht).
  rewrite counters_of_tally, final_state_run, E. unfold tally.
  cbn [cwrap cadd bulk errors chars]. rewrite He, Hc.
  split; [reflexivity | split; [reflexivity | exact Ht]].
Qed.

(** The text [a], space, euro sign, read in two chunks that split the
    three-byte sequence. *)
Lemma count_well_formed_witness :
  errors (counters_of sample_three_byte) = 0
  /\ chars (counters_of sample_three_byte) = 3.
Proof.
  assert (H : Forall (fun u => unit_ok u = true)
                [[x61]; [x20]; [xe2; x82; xac]])
    by (repeat constructor).
  destruct (count_well_formed sample_three_byte _ H eq_refl) as (He & Hc & _).
  split; [exact He | exact Hc].
Defined.

Lemma classify_ascii (b : byte) :
  match classify b with
  | Blank | Newline | Plain => is_ascii b = true
  | Cont | Lead2 | Lead3 | BadLead => True
  end.
Proof. destruct b; vm_compute; auto. Qed.


(** A stream that causes no error and ends outside a sequence consists of
    the bytes that complete the sequence in progress, followed by
    well-formed units. *)
Lemma effects_no_error (s : list byte) : forall st,
  errors (effects st s) = 0 -> text_state (run st s) ->
  exists q units,
    s = q ++ List.concat units /\ completes st q
    /\ Forall (fun u => unit_ok u = true) units.
Proof.
  induction s as [|b s IH]; intros st He Ht.
  - exists [], []. cbn [run] in Ht. split; [reflexivity|].
    split; [destruct Ht as [-> | ->]; reflexivity | constructor].
  - cbn [effects run cadd errors] in He, Ht.
    pose proof (effects_bounds s (target (lookup st b))) as Hb.
    pose proof (delta_bounds (lookup st b)) as Hd.
    assert (He1 : errors (delta (lookup st b)) = 0) by lia.
    assert (He2 : errors (effects (target (lookup st b)) s) = 0) by lia.
    destruct (IH _ He2 Ht) as (q & units & -> & Hq & Hu).
    clear IH He Ht He2 Hb Hd.
    rewrite lookup_rule in He1, Hq.
    pose proof (classify_spec b) as Hs. pose proof (classify_ascii b) as Ha.
    destruct st, (classify b); cbn [rule delta errors] in He1;
      try discriminate He1; cbn [rule target completes] in Hq.
    all: try (subst q; exists [], ([b] :: units);
              split; [reflexivity|]; split; [reflexivity|];
              constructor; [exact Ha | exact Hu]).
    all: try (destruct Hq as (c & -> & Hc); exists [], ([b; c] :: units);
              split; [reflexivity|]; split; [reflexivity|];
              constructor; [cbn [unit_ok]; rewrite Hs, Hc; reflexivity
                           | exact Hu]).
    all: try (destruct Hq as (c & d & -> & Hc & Hd);
              exists [], ([b; c; d] :: units);
              split; [reflexivity|]; split; [reflexivity|];
              constructor; [cbn [unit_ok]; rewrite Hs, Hc, Hd; reflexivity
                           | exact Hu]).
    + subst q. exists [b], units. split; [reflexivity|].
      split; [exists b; split; [reflexivity | exact Hs] | exact Hu].
    + destruct Hq as (c & -> & Hc). exists [b; c], units.
      split; [reflexivity|].
      split; [exists b, c; repeat split; assumption | exact Hu].
Qed.

(** X5. Conversely, for a file shorter than [2^64] bytes: if [count] finds
    no bad sequence and ends outside a sequence, the stream is a sequence
    of well-formed units. *)
Theorem count_no_error_well_formed (f : file) :
  short f -> errors (counters_of f) = 0 -> text_state (final_state f) ->
  exists units,
    stream (freads f) = List.concat units
    /\ Forall (fun u => unit_ok u = true) units.
Proof.
  intros Hs He Ht. rewrite (counters_exact f Hs) in He.
  rewrite final_state_run in Ht. unfold tally in He.
  cbn [cadd bulk errors] in He.
  destruct (effects_no_error _ Statesp He Ht) as (q & units & E & Hq & Hu).
  cbn [completes] in Hq. subst q. exists units. split; assumption.
Qed.

Lemma count_no_error_well_formed_witness :
  short sample_three_byte
  /\ exists units,
       stream (freads sample_three_byte) = List.concat units
       /\ Forall (fun u => unit_ok u = true) units.
Proof.
  assert (H : short sample_three_byte) by reflexivity.
  split; [exact H|].
  exact (count_no_error_well_formed sample_three_byte H eq_refl
           (or_intror eq_refl)).
Defined.

(** ** The decoder state *)

Lemma scan_state (s : list byte) : forall st n,
  fst (scan st n s) = run st s.
Proof.
  unfold scan.
  induction s as [|b s IH]; intros st n; cbn [fold_left run]; [reflexivity|].
  unfold step at 2. cbn [fst snd].
  destruct (switch (lookup st b) n) as (st', n') eqn:E.
  rewrite IH. f_equal.
  change st' with (fst (st', n')). rewrite <- E.
  destruct (lookup st b); reflexivity.
Qed.

Lemma run_two (st st' : state) (a b : byte) :
  run st [a; b] = run st' [a; b].
Proof.
  cbn [run]. rewrite !lookup_rule.
  destruct st, st', (classify a), (classify b); reflexivity.
Qed.

(** X6. The state of the stepping loop depends only on the last two bytes
    it has read: whatever the state and the counters it starts with and
    whatever it reads before, it is in the same state after the same two
    bytes.  It is in the boundary state exactly after a blank. *)
Theorem scan_resynchronizes (st st' : state) (n n' : counter)
    (s s' : list byte) (a b : byte) :
  fst (scan st n (s ++ [a; b])) = fst (scan st' n' (s' ++ [a; b]))
  /\ (fst (scan st n (s ++ [b])) = Statesp <-> is_space b = true).
Proof.
  rewrite !scan_state, !run_app. split; [apply run_two|].
  cbn [run]. pose proof (target_boundary (run st s) b) as H.
  destruct (target (lookup (run st s) b)), (is_space b);
    cbn [at_boundary] in H; split; intros E;
    first [reflexivity | discriminate].
Qed.

(** ** More input *)

(** X7. Reading more never lowers a counter: when the stream of [g]
    extends the stream of [f] and is shorter than [2^64] bytes, each of the
    five counters of [g] is at least the counter of [f]. *)
Theorem count_monotone (f g : file) (q : list byte) :
  short g -> stream (freads g) = stream (freads f) ++ q ->
  lines (counters_of f) <= lines (counters_of g)
  /\ words (counters_of f) <= words (counters_of g)
  /\ chars (counters_of f) <= chars (counters_of g)
  /\ errors (counters_of f) <= errors (counters_of g)
  /\ bytes (counters_of f) <= bytes (counters_of g).
Proof.
  intros Hg E.
  assert (Hf : short f).
  { unfold short in *. rewrite E, length_app in Hg. lia. }
  rewrite (counters_exact f Hf), (counters_exact g Hg), E, tally_app.
  pose proof (effects_bounds q (run Statesp (stream (freads f)))) as Hb.
  rewrite (cadd_comm (bulk _)).
  cbn [cadd bulk lines words chars errors bytes].
  rewrite (effects_bytes q). lia.
Qed.

Lemma count_monotone_witness :
  short sample_two_byte
  /\ chars (counters_of sample_lone_lead) <= chars (counters_of sample_two_byte)
  /\ errors (counters_of sample_lone_lead)
     <= errors (counters_of sample_two_byte).
Proof.
  assert (H : short sample_two_byte) by reflexivity.
  split; [exact H|].
  destruct (count_monotone sample_lone_lead sample_two_byte [xa9] H eq_refl)
    as (_ & _ & Hc & He & _).
  split; [exact Hc | exact He].
Defined.

(** ** What [count] reads *)

Lemma stream_cut (reads1 reads2 : list read) (r : read) :
  rd_buf r = [] -> stream (reads1 ++ r :: reads2) = stream reads1.
Proof.
  intros Hr. induction reads1 as [|r1 reads1 IH]; cbn [app stream].
  - rewrite Hr. reflexivity.
  - destruct (rd_buf r1); [reflexivity|]. rewrite IH. reflexivity.
Qed.

Lemma stream_bytes_only (reads reads' : list read) :
  map rd_buf reads = map rd_buf reads' -> stream reads = stream reads'.
Proof.
  revert reads'. induction reads as [|r reads IH]; intros [|r' reads'];
    cbn [map stream]; intros E; try discriminate E; [reflexivity|].
  injection E as E1 E2. rewrite E1, (IH _ E2). reflexivity.
Qed.

(** X8. [count] stops at the first read that returns no byte: what the file
    would deliver after it does not change the result.  It looks at neither
    the error values of the reads nor the name of the file: two files whose
    reads return the same bytes get the same counters, and nothing is
    written. *)
Theorem count_reads (name name' : string) (reads1 reads2 reads' : list read)
    (r : read) (n n' : counter) (k : console) :
  (rd_buf r = [] ->
   count n (mkFile name (reads1 ++ r :: reads2)) k
   = count n' (mkFile name reads1) k)
  /\ (map rd_buf reads1 = map rd_buf reads' ->
      count n (mkFile name reads1) k = count n' (mkFile name' reads') k)
  /\ snd (count n (mkFile name reads1) k) = k.
Proof.
  split; [|split].
  - intros Hr. rewrite !count_tally. cbn [freads].
    rewrite (stream_cut _ _ _ Hr). reflexivity.
  - intros E. rewrite !count_tally. cbn [freads].
    rewrite (stream_bytes_only _ _ E). reflexivity.
  - rewrite count_tally. reflexivity.
Qed.

(** A file whose second read fails, and the same file cut after its first
    chunk. *)
Lemma count_reads_witness :
  count zero_counter (mkFile "f" sample_read_error) empty_console
  = count zero_counter (mkFile "f" [ok_read [x61; x62; x0a]]) empty_console.
Proof.
  exact (proj1 (count_reads "f" "f" [ok_read [x61; x62; x0a]]
                  [ok_read [x63; x0a]] []
                  (mkRead [] (Some "input/output error"%string))
                  zero_counter zero_counter empty_console) eq_refl).
Defined.

(** ** Concatenation *)

(** X9. When the stream of [h] is the stream of [f] followed by the stream
    of [g], the lines and the bytes of [h] are the sums of those of [f] and
    [g], and the words of [h] are the sum less one when the last word of [f]
    and the first word of [g] join: when [f] does not end at a word
    boundary and [g] starts with a byte that is not a blank.  The sums are
    those of [uint64]. *)
Theorem count_concat (f g h : file) :
  stream (freads h) = stream (freads f) ++ stream (freads g) ->
  lines (counters_of h) = U64.add (lines (counters_of f)) (lines (counters_of g))
  /\ bytes (counters_of h)
     = U64.add (bytes (counters_of f)) (bytes (counters_of g))
  /\ words (counters_of h)
     = U64.wrap (words (counters_of f) + words (counters_of g)
                 - (if at_boundary (final_state f) then 0
                    else if starts_word (stream (freads g)) then 1 else 0)).
Proof.
  intros E. rewrite !counters_of_tally, final_state_run, E, tally_app.
  unfold tally, U64.add.
  cbn [cwrap cadd bulk lines words bytes].
  rewrite !effects_lines, !(effects_bytes _ _), !effects_words.
  cbn [at_boundary]. rewrite !wrap_add_l, !wrap_add_r.
  split; [f_equal; lia|]. split; [f_equal; lia|].
  unfold U64.wrap. rewrite <- Zminus_mod_idemp_l, <- Zplus_mod.
  rewrite Zminus_mod_idemp_l. f_equal. lia.
Qed.

Lemma count_concat_witness :
  words (counters_of (file_of_stream [x67; x6f; x74; x6f])) = 1
  /\ lines (counters_of (file_of_stream [x67; x6f; x0a; x74; x6f])) = 1.
Proof.
  destruct (count_concat (file_of_stream [x67; x6f]) (file_of_stream [x74; x6f])
              (file_of_stream [x67; x6f; x74; x6f]) eq_refl) as (_ & _ & Hw).
  destruct (count_concat (file_of_stream [x67; x6f; x0a])
              (file_of_stream [x74; x6f])
              (file_of_stream [x67; x6f; x0a; x74; x6f]) eq_refl)
    as (Hl & _ & _).
  rewrite Hw, Hl. split; reflexivity.
Defined.

(** * Further properties of [main] and [report] *)

(** ** Arguments that cannot be opened *)

Lemma arg_loop_fails (fl : flags) (pre post : list argument) (a : argument)
    (err : string) :
  Forall opens pre -> arg_open a = Fails err ->
  forall (n t : counter) (k : console),
  arg_loop fl (pre ++ a :: post) n t k
  = (Exit 1, mkConsole (stdout k ++ report_lines fl pre)
                       (stderr k ++ open_message a err)).
Proof.
  intros Hpre Ha.
  induction Hpre as [|b pre (reads & Hb) _ IH]; intros n t k;
    cbn [app arg_loop report_lines].
  - rewrite Ha. unfold bind, write_stderr, os_Exit, open_message.
    rewrite string_app_nil_r. reflexivity.
  - rewrite Hb. unfold bind at 1. rewrite count_returns.
    unfold bind at 1. unfold report at 1, write_stdout at 1.
    rewrite (arg_file_opens b reads Hb), IH. cbn [stdout stderr].
    rewrite string_app_assoc. reflexivity.
Qed.

Lemma NArg_app_cons (pre post : list argument) (a : argument) :
  (NArg (pre ++ a :: post) =? 0) = false.
Proof.
  apply Z.eqb_neq. unfold NArg. rewrite length_app. cbn [List.length]. lia.
Qed.

(** X10. When an argument cannot be opened and those before it can, the
    program writes the report lines of the arguments before it, then the
    message naming the argument on the error stream, and exits with
    status 1: neither the later arguments nor the totals are reported, and
    standard input is not read. *)
Theorem main_open_failure (o : options) (stdin_reads : list read)
    (pre post : list argument) (a : argument) (err : string) :
  Forall opens pre -> arg_open a = Fails err ->
  run_main o stdin_reads (pre ++ a :: post)
  = (1, mkConsole (report_lines (effective_flags o) pre)
                  (open_message a err)).
Proof.
  intros Hpre Ha. unfold run_main, main.
  rewrite NArg_app_cons. unfold bind at 1. unfold ret at 1. unfold bind at 1.
  rewrite (arg_loop_fails _ pre post a err Hpre Ha). reflexivity.
Qed.

Lemma main_open_failure_witness :
  run_main no_options [ok_read [x61]] sample_missing
  = (1, mkConsole ("      1      1      3 a" ++ newline)%string
          ("wc: can't open gone: error no such file or directory"
             ++ newline)%string).
Proof.
  assert (H : Forall opens [mkArg "a" (Opens [ok_read [x67; x6f; x0a]])])
    by (repeat constructor; eexists; reflexivity).
  exact (main_open_failure no_options [ok_read [x61]] _
           [mkArg "b" (Opens [ok_read [x61]])]
           (mkArg "gone" (Fails "no such file or directory"))
           "no such file or directory" H eq_refl).
Defined.




(** X12. With a file argument on the command line, standard input is not
    read: what it would deliver changes nothing of the run. *)
Theorem main_ignores_stdin (o : options) (stdin_reads stdin_reads' : list read)
    (args : list argument) :
  args <> [] ->
  run_main o stdin_reads args = run_main o stdin_reads' args.
Proof.
  intros Hargs. unfold run_main, main.
  destruct (NArg args =? 0) eqn:H0; [|reflexivity].
  apply NArg_nil in H0. contradiction.
Qed.

Lemma main_ignores_stdin_witness :
  run_main no_options [ok_read [x61; x0a]] sample_args
  = run_main no_options [] sample_args.
Proof.
  apply (main_ignores_stdin no_options [ok_read [x61; x0a]] [] sample_args).
  discriminate.
Defined.

(** ** Totals *)

Lemma csum_permutation (cs cs' : list counter) :
  Permutation cs cs' -> csum cs = csum cs'.
Proof.
  unfold csum.
  induction 1 as [|c cs cs' _ IH|c d cs|cs cs' cs'' _ IH1 _ IH2];
    cbn [fold_right].
  - reflexivity.
  - rewrite IH. reflexivity.
  - rewrite <- !cadd_assoc, (cadd_comm d c). reflexivity.
  - rewrite IH1. exact IH2.
Qed.

Lemma opens_permutation (args args' : list argument) :
  Permutation args args' -> Forall opens args -> Forall opens args'.
Proof.
  intros Hp Ho. apply Forall_forall. intros a Ha.
  apply (proj1 (Forall_forall _ _) Ho).
  apply (Permutation_in a (Permutation_sym Hp) Ha).
Qed.

Lemma arg_loop_total (fl : flags) (args : list argument) (n t : counter)
    (k : console) :
  Forall opens args -> valid t ->
  loop_total (arg_loop fl args n t k) = cwrap (cadd t (csum (per_source args))).
Proof.
  intros Ho Ht. destruct (arg_loop_spec fl args Ho n t k) as (n' & E).
  unfold loop_total. rewrite E. cbn [value_of snd].
  apply fold_accumulate, Ht.
Qed.

(** X13. The totals do not depend on the order of the files: for
    arguments that can all be opened, the argument loop leaves the same
    total for every permutation of them, whatever the flags, the counter
    handed over and the output written before; from a zero total it is the
    elementwise sum of the counters of the files, as [uint64]s. *)
Theorem totals_permutation (fl fl' : flags) (args args' : list argument)
    (n n' t : counter) (k k' : console) :
  Forall opens args -> valid t -> Permutation args args' ->
  loop_total (arg_loop fl args n t k) = loop_total (arg_loop fl' args' n' t k')
  /\ loop_total (arg_loop fl args n zero_counter k)
     = cwrap (csum (per_source args)).
Proof.
  intros Ho Ht Hp.
  rewrite !arg_loop_total
    by first [assumption | apply valid_zero
             | apply (opens_permutation args args' Hp Ho)].
  rewrite cadd_zero_l. split; [|reflexivity].
  rewrite (csum_permutation (per_source args) (per_source args'));
    [reflexivity|].
  unfold per_source. apply Permutation_map, Hp.
Qed.

Lemma totals_permutation_witness :
  loop_total (arg_loop (effective_flags no_options) sample_args zero_counter
                zero_counter empty_console)
  = loop_total (arg_loop (effective_flags no_options) (rev sample_args)
                  zero_counter zero_counter empty_console)
  /\ loop_total (arg_loop (effective_flags no_options) sample_args
                   zero_counter zero_counter empty_console)
     = mkCounter 1 3 8 2 9.
Proof.
  assert (H : Forall opens sample_args)
    by (repeat constructor; eexists; reflexivity).
  exact (totals_permutation (effective_flags no_options)
           (effective_flags no_options) sample_args (rev sample_args)
           zero_counter zero_counter zero_counter empty_console empty_console
           H valid_zero (Permutation_rev sample_args)).
Defined.

(** ** Fields *)

Lemma string_length_app (a b : string) :
  String.length (a ++ b) = (String.length a + String.length b)%nat.
Proof.
  induction a as [|x a IH]; cbn [append String.length]; [reflexivity|].
  rewrite IH. reflexivity.
Qed.

Lemma spaces_length (k : nat) : String.length (spaces k) = k.
Proof. induction k as [|k IH]; cbn [spaces String.length]; congruence. Qed.

Lemma to_uint_nonnil (m : N) : N.to_uint m <> Decimal.Nil.
Proof.
  destruct m as [|p]; [discriminate|].
  apply DecimalPos.Unsigned.to_uint_nonnil.
Qed.

(** The decimal digits of a number start with a digit, not with a space. *)
Lemma decimal_head (x : Z) :
  exists c rest, decimal x = String c rest /\ c <> " "%char.
Proof.
  unfold decimal. pose proof (to_uint_nonnil (Z.to_N x)) as Hn.
  destruct (N.to_uint (Z.to_N x)); [contradiction|..];
    cbn [NilZero.string_of_uint NilEmpty.string_of_uint];
    eexists; eexists; (split; [reflexivity | discriminate]).
Qed.

Lemma decimal_inj (x y : Z) :
  0 <= x -> 0 <= y -> decimal x = decimal y -> x = y.
Proof.
  unfold decimal. intros Hx Hy E.
  pose proof (NilZero.usu _ (to_uint_nonnil (Z.to_N x))) as Ux.
  pose proof (NilZero.usu _ (to_uint_nonnil (Z.to_N y))) as Uy.
  rewrite E, Uy in Ux. injection Ux as Ux.
  apply DecimalN.Unsigned.to_uint_inj in Ux.
  apply Z2N.inj; [assumption..|]. symmetry. exact Ux.
Qed.

Lemma spaces_digits_inj (j k : nat) (c d : ascii) (r s : string) :
  c <> " "%char -> d <> " "%char ->
  (spaces j ++ String c r = spaces k ++ String d s)%string ->
  String c r = String d s.
Proof.
  intros Hc Hd. revert k.
  induction j as [|j IH]; intros [|k] E; cbn [spaces append] in E.
  - exact E.
  - injection E as E _. contradiction.
  - injection E as E _. symmetry in E. contradiction.
  - injection E as E. exact (IH k E).
Qed.

(** X14. A field printed by [%7d] is at least seven characters wide and
    consists of spaces followed by all the digits of the number, so that
    different counts give different fields. *)
Theorem field_faithful (x y : Z) :
  0 <= x -> 0 <= y ->
  (7 <= String.length (Sprintf_7d x))%nat
  /\ String.length (Sprintf_7d x)
     = Nat.max 7 (String.length (decimal x))
  /\ (Sprintf_7d x = Sprintf_7d y -> x = y).
Proof.
  intros Hx Hy.
  assert (L : String.length (Sprintf_7d x)
              = Nat.max 7 (String.length (decimal x))).
  { unfold Sprintf_7d. rewrite string_length_app, spaces_length. lia. }
  split; [rewrite L; lia|]. split; [exact L|].
  unfold Sprintf_7d. intros E.
  destruct (decimal_head x) as (c & r & Ex & Hc).
  destruct (decimal_head y) as (d & s & Ey & Hd).
  apply (decimal_inj x y Hx Hy).
  rewrite Ex, Ey in *. exact (spaces_digits_inj _ _ c d r s Hc Hd E).
Qed.

Lemma field_faithful_witness :
  String.length (Sprintf_7d 42) = 7%nat
  /\ String.length (Sprintf_7d 123456789) = 9%nat.
Proof.
  destruct (field_faithful 42 7 ltac:(lia) ltac:(lia)) as (_ & H1 & _).
  destruct (field_faithful 123456789 7 ltac:(lia) ltac:(lia)) as (_ & H2 & _).
  rewrite H1, H2. split; reflexivity.
Defined.

(** ** Flags *)

Lemma NFlag_zero (o : options) : NFlag o = 0 -> o = no_options.
Proof.
  destruct o as [[l|] [w|] [c|] [e|] [b|]]; cbn; intros H;
    first [discriminate H | reflexivity].
Qed.

(** X15. The default fields are chosen only when no flag at all occurs on
    the command line.  As soon as one occurs, the flags are as given, even
    when they are given as false: with every flag false the report line is
    a space, the name and a newline, without any count. *)
Theorem flags_as_given (o : options) (c : counter) (name : string) :
  o <> no_options ->
  effective_flags o = parsed_flags o
  /\ (parsed_flags o = mkFlags false false false false false ->
      report_line (effective_flags o) c name
      = (" " ++ name ++ newline)%string).
Proof.
  intros Ho.
  assert (E : effective_flags o = parsed_flags o).
  { unfold effective_flags. destruct (NFlag o =? 0) eqn:H0; [|reflexivity].
    apply Z.eqb_eq, NFlag_zero in H0. contradiction. }
  split; [exact E|]. intros Hf. rewrite E, Hf. reflexivity.
Qed.

Lemma flags_as_given_witness :
  report_line (effective_flags (mkOptions (Some false) None None None None))
              zero_counter "f"
  = (" f" ++ newline)%string.
Proof.
  apply (flags_as_given (mkOptions (Some false) None None None None)
           zero_counter "f"); [discriminate | reflexivity].
Defined.

(** ** Empty and blank input *)

Lemma fields_nil_blanks (s : list byte) : fields s = [] <-> blanks s.
Proof.
  induction s as [|b s IH]; cbn [fields].
  - split; [constructor | reflexivity].
  - destruct (is_space b) eqn:Hb.
    + rewrite IH. split; [intros H; constructor; assumption|].
      intros H. inversion H; assumption.
    + split.
      * destruct (starts_word s); [destruct (fields s)|]; discriminate.
      * intros H. inversion H as [|? ? Hb' _]. congruence.
Qed.

(** X16. For a file shorter than [2^64] bytes: the five counters are all
    zero exactly when no byte is read, and the word counter is zero exactly
    when every byte read is a tab, a newline or a space. *)
Theorem count_zero (f : file) :
  short f ->
  (counters_of f = zero_counter <-> stream (freads f) = [])
  /\ (words (counters_of f) = 0 <-> blanks (stream (freads f))).
Proof.
  intros Hs. rewrite (counters_exact f Hs). split.
  - split.
    + intros E. pose proof (tally_fields (stream (freads f))) as Hf.
      rewrite E in Hf. cbn [bytes zero_counter] in Hf.
      destruct (stream (freads f)); [reflexivity|].
      cbn [List.length] in Hf. lia.
    + intros ->. reflexivity.
  - rewrite <- fields_nil_blanks. unfold tally. cbn [cadd bulk words].
    rewrite <- words_boundary. unfold maximal_runs.
    destruct (fields (stream (freads f))); cbn [List.length];
      split; intros H; first [reflexivity | discriminate H | lia].
Qed.

Lemma count_zero_witness :
  short (file_of_stream [x20; x0a; x09])
  /\ words (counters_of (file_of_stream [x20; x0a; x09])) = 0.
Proof.
  assert (H : short (file_of_stream [x20; x0a; x09])) by reflexivity.
  split; [exact H|].
  apply (proj2 (count_zero _ H)). repeat constructor.
Defined.
